(** * magicServer: the Drive upload client of [training-area/test-a.go]

    A shallow embedding of the Go program and the properties of its
    formatting helpers, its credential cache and its upload path.

    - Go's [int64] is a [Z] with the wrap-around written out ([wrap64]).
    - Go's [float64] is the IEEE 754 binary64 model of [SpecFloat].
    - A function that can call [log.Fatalf], dereference a nil pointer or
      index a slice out of range returns an [Outcome].
    - The file system, the terminal, the clock and the remote service are a
      [World] that answers every call; what the program does to them is
      recorded as a list of [Event]s. *)

From Stdlib Require Import ZArith Lia Ascii String SpecFloat.
From stdpp Require Import base list strings.

Local Open Scope string_scope.
Local Open Scope list_scope.
Local Open Scope Z_scope.

(* ================================================================== *)
(** ** How a Go call ends *)

Inductive PanicReason : Type :=
| IndexOutOfRange
| NilDereference
| IntegerDivideByZero.

(** [Ret]: the call returns; [Exit c]: [os.Exit(c)] was reached (through
    [log.Fatalf], [c = 1]); [Panic]: a run-time panic unwinds the program;
    [OutOfFuel]: the bound on loop iterations of the model was reached. *)
Inductive Outcome (A : Type) : Type :=
| Ret (a : A)
| Exit (code : Z)
| Panic (r : PanicReason)
| OutOfFuel.

Arguments Ret {A} a.
Arguments Exit {A} code.
Arguments Panic {A} r.
Arguments OutOfFuel {A}.

Definition obind {A B : Type} (m : Outcome A) (k : A -> Outcome B) : Outcome B :=
  match m with
  | Ret a => k a
  | Exit c => Exit c
  | Panic r => Panic r
  | OutOfFuel => OutOfFuel
  end.

Definition omap {A B : Type} (f : A -> B) (m : Outcome A) : Outcome B :=
  obind m (fun a => Ret (f a)).

(* ================================================================== *)
(** ** Machine integers *)

Definition min_int64 : Z := - 2 ^ 63.
Definition max_int64 : Z := 2 ^ 63 - 1.

Definition is_int64 (v : Z) : Prop := min_int64 <= v <= max_int64.

(** Two's complement wrap-around of an [int64] result. *)
Definition wrap64 (z : Z) : Z := (z + 2 ^ 63) mod 2 ^ 64 - 2 ^ 63.

(** Indexing a slice of length [len] at [j]: Go panics out of range. *)
Definition in_range (j : Z) (len : nat) : bool :=
  (0 <=? j) && (j <? Z.of_nat len).

(* ================================================================== *)
(** ** Decimal text: [strconv.FormatInt(v, 10)] and [strconv.Itoa] *)

Definition digit_char (d : Z) : ascii := ascii_of_nat (48 + Z.to_nat d).

Definition digit_of (c : ascii) : Z := Z.of_nat (nat_of_ascii c) - 48.

Definition is_digit (c : ascii) : bool :=
  (48 <=? nat_of_ascii c)%nat && (nat_of_ascii c <=? 57)%nat.

(** The digit loop of [strconv]: digits are produced from the least
    significant one and written in front of what is already there. *)
Fixpoint uitoa (fuel : nat) (n : Z) (acc : string) : string :=
  match fuel with
  | O => acc
  | S fuel' =>
      let acc' := String (digit_char (n mod 10)) acc in
      if n <? 10 then acc' else uitoa fuel' (n / 10) acc'
  end.

(** [n < 2 ^ (log2 n + 1)], so one more iteration than [log2 n] is
    enough for every digit. *)
Definition FormatUint (n : Z) : string :=
  uitoa (S (Z.to_nat (Z.log2 n))) n "".

Definition FormatInt (v : Z) : string :=
  if v <? 0 then "-" +:+ FormatUint (- v) else FormatUint v.

(** [strconv.Itoa(int(v))]: [int] is 64 bits wide on the platforms the
    program is built for. *)
Definition Itoa (v : Z) : string := FormatInt v.

(** [strings.Join(elems, sep)] *)
Fixpoint Join (elems : list string) (sep : string) : string :=
  match elems with
  | [] => ""
  | [e] => e
  | e :: rest => e +:+ sep +:+ Join rest sep
  end.

(* ================================================================== *)
(** ** [Comma] *)

(** The [switch len(parts[j])] that pads a group to three digits. *)
Definition pad_group (p : string) : string :=
  match String.length p with
  | 2%nat => "0" +:+ p
  | 1%nat => "00" +:+ p
  | _ => p
  end.

(** The loop [for v > 999 { ... }] on the state [(v, parts, j)]. Writing
    [parts[j]] panics when [j] has left the slice. *)
Fixpoint Comma_loop (fuel : nat) (v : Z) (parts : list string) (j : Z)
  : Outcome (Z * list string * Z) :=
  match fuel with
  | O => OutOfFuel
  | S fuel' =>
      if 999 <? v then
        if in_range j (length parts) then
          let p := pad_group (FormatInt (Z.rem v 1000)) in
          Comma_loop fuel' (wrap64 (Z.quot v 1000))
                     (<[Z.to_nat j := p]> parts) (wrap64 (j - 1))
        else Panic IndexOutOfRange
      else Ret (v, parts, j)
  end.

(** An [int64] is divided by 1000 fewer than 64 times before it is at
    most 999. *)
Definition Comma_fuel : nat := 64.

Definition Comma (v : Z) : Outcome string :=
  let sign := if v <? 0 then "-" else "" in
  let v := if v <? 0 then wrap64 (0 - v) else v in
  let parts := replicate 7 "" in
  let j := Z.of_nat (length parts) - 1 in
  obind (Comma_loop Comma_fuel v parts j) (fun '(v, parts, j) =>
    if in_range j (length parts) then
      let parts := <[Z.to_nat j := Itoa v]> parts in
      Ret (sign +:+ Join (drop (Z.to_nat j) parts) ",")
    else Panic IndexOutOfRange).

(** *** What the specification says about grouping *)

(** Strip the separators of a grouped number. *)
Fixpoint strip_separators (s : string) : string :=
  match s with
  | EmptyString => EmptyString
  | String c r =>
      if Ascii.eqb c "," then strip_separators r
      else String c (strip_separators r)
  end.

Fixpoint dec_val_from (acc : Z) (s : string) : Z :=
  match s with
  | EmptyString => acc
  | String c r => dec_val_from (acc * 10 + digit_of c) r
  end.

Fixpoint all_digits (s : string) : bool :=
  match s with
  | EmptyString => true
  | String c r => is_digit c && all_digits r
  end.

(** A group written by the loop: three decimal digits. *)
Definition is_group (p : string) : Prop :=
  String.length p = 3%nat /\ all_digits p = true.

Fixpoint concat_strings (l : list string) : string :=
  match l with
  | [] => ""
  | s :: l' => s +:+ concat_strings l'
  end.

(** The three digits of a number below 1000. *)
Definition three_digits (r : Z) : string :=
  String (digit_char (r / 100))
    (String (digit_char (r / 10 mod 10))
       (String (digit_char (r mod 10)) "")).

(** Grouping as the specification words it: a separator every three
    digits, counted from the right. Going through the digits from the
    left, a separator follows a digit when the digits still to come are a
    positive multiple of three. *)
Fixpoint insert_separators (digits : string) : string :=
  match digits with
  | EmptyString => EmptyString
  | String c rest =>
      let n := String.length rest in
      if (0 <? n)%nat && (n mod 3 =? 0)%nat
      then String c (String "," (insert_separators rest))
      else String c (insert_separators rest)
  end.

(** The sign, then the grouped digits of the absolute value. *)
Definition groupThousands_spec (v : Z) : string :=
  (if v <? 0 then "-" else "") +:+ insert_separators (FormatUint (Z.abs v)).

(** Parse a non-empty string of decimal digits; anything else is
    rejected. *)
Definition parse_decimal (s : string) : option Z :=
  match s with
  | EmptyString => None
  | _ => if all_digits s then Some (dec_val_from 0 s) else None
  end.

(* ================================================================== *)
(** ** [float64] *)

(** IEEE 754 binary64: 53 bits of precision, exponents below 1024. A
    value is [S754_zero], [S754_infinity], [S754_nan] or
    [S754_finite s m e], which stands for [(-1)^s * m * 2^e]. *)
Definition prec : Z := 53.
Definition emax : Z := 1024.

Definition float64 : Type := spec_float.

(** The conversion [float64(v)] of an integer: round to nearest, ties to
    even. *)
Definition float64_of_int (v : Z) : float64 := binary_normalize prec emax v 0 false.

Definition f64_div (x y : float64) : float64 := SFdiv prec emax x y.
Definition f64_add (x y : float64) : float64 := SFadd prec emax x y.

(** [x > y] *)
Definition f64_gt (x y : float64) : bool := SFltb y x.

(** The conversion [int64(x)]: the fraction is discarded (truncation
    toward zero). Out of range the result is implementation-defined; amd64
    gives the smallest [int64]. *)
Definition int64_of_float64 (x : float64) : Z :=
  match x with
  | S754_zero _ => 0
  | S754_finite s m e =>
      let a := if 0 <=? e then Z.pos m * 2 ^ e else Z.pos m / 2 ^ (- e) in
      let v := if s then - a else a in
      if (min_int64 <=? v) && (v <=? max_int64) then v else min_int64
  | _ => min_int64
  end.

(** [n / d] rounded to the nearest integer, ties to even ([0 < d]). *)
Definition round_half_even (n d : Z) : Z :=
  let q := n / d in
  let r := n mod d in
  if 2 * r <? d then q
  else if d <? 2 * r then q + 1
  else if Z.even q then q else q + 1.

(** The number of tenths nearest to [m * 2^e]. *)
Definition tenths (m : positive) (e : Z) : Z :=
  if 0 <=? e then 10 * Z.pos m * 2 ^ e
  else round_half_even (10 * Z.pos m) (2 ^ (- e)).

(** [fmt.Sprintf("%.1f", x)]: the exact value of [x] correctly rounded to
    one digit after the point. *)
Definition Sprintf_f1 (x : float64) : string :=
  match x with
  | S754_zero s => (if s then "-" else "") +:+ "0.0"
  | S754_infinity s => if s then "-Inf" else "+Inf"
  | S754_nan => "NaN"
  | S754_finite s m e =>
      let t := tenths m e in
      (if s then "-" else "") +:+ FormatUint (t / 10) +:+ "." +:+ FormatUint (t mod 10)
  end.

(* ================================================================== *)
(** ** [FileSizeFormat] *)

Definition units : list string := ["B"; "KB"; "MB"; "GB"; "TB"; "PB"].

(** The loop [for value > 1000 { value /= 1000; i++ }]. *)
Fixpoint FileSizeFormat_loop (fuel : nat) (value : float64) (i : Z)
  : Outcome (float64 * Z) :=
  match fuel with
  | O => OutOfFuel
  | S fuel' =>
      if f64_gt value (float64_of_int 1000) then
        FileSizeFormat_loop fuel' (f64_div value (float64_of_int 1000)) (wrap64 (i + 1))
      else Ret (value, i)
  end.

(** A finite [float64] is below [2^1024 < 1000^103]: the loop divides it
    at most 103 times. *)
Definition FileSizeFormat_fuel : nat := 128.

(** The value and the unit the function settles on, before they are
    printed: [units[i]] panics when [i] has left the table. *)
Definition FileSizeFormat_scale (bytes : Z) : Outcome (float64 * string) :=
  obind (FileSizeFormat_loop FileSizeFormat_fuel (float64_of_int bytes) 0)
    (fun '(value, i) =>
       if in_range i (length units) then
         match units !! Z.to_nat i with
         | Some u => Ret (value, u)
         | None => Panic IndexOutOfRange
         end
       else Panic IndexOutOfRange).

Definition FileSizeFormat (bytes : Z) (forceBytes : bool) : Outcome string :=
  if forceBytes then Ret (FormatInt bytes +:+ " B")
  else
    omap (fun '(value, u) => Sprintf_f1 value +:+ " " +:+ u)
         (FileSizeFormat_scale bytes).

(* ================================================================== *)
(** ** [MeasureTransferRate] *)

(** [time.Duration] is a number of nanoseconds in an [int64];
    [Duration.Seconds()] is [float64(d / 1e9) + float64(d % 1e9) / 1e9]. *)
Definition Second : Z := 1000000000.

Definition Duration_Seconds (d : Z) : float64 :=
  f64_add (float64_of_int (Z.quot d Second))
          (f64_div (float64_of_int (Z.rem d Second)) (float64_of_int Second)).

(** Integer division: Go panics on a zero divisor. *)
Definition int64_div (a b : Z) : Outcome Z :=
  if b =? 0 then Panic IntegerDivideByZero else Ret (wrap64 (Z.quot a b)).

(** [t.Sub(u)]: the difference of two clock readings (nanoseconds), kept
    within the range of a [Duration]. *)
Definition Time_Sub (t u : Z) : Z := Z.max min_int64 (Z.min max_int64 (t - u)).

(** [int64(time.Now().Sub(start).Seconds())] when the clock reads [now]. *)
Definition whole_seconds (start now : Z) : Z :=
  int64_of_float64 (Duration_Seconds (Time_Sub now start)).

(** [MeasureTransferRate] reads the clock ([start]) and returns a closure;
    the closure reads the clock again ([now]) each time it is called. *)
Definition MeasureTransferRate (start : Z) : Z -> Z -> Outcome string :=
  fun now bytes =>
    let seconds := whole_seconds start now in
    if seconds <? 1 then
      omap (fun s => s +:+ "/s") (FileSizeFormat bytes false)
    else
      obind (int64_div bytes seconds) (fun bps =>
      omap (fun s => s +:+ "/s") (FileSizeFormat bps false)).

(* ================================================================== *)
(** ** The world outside the program *)

Definition Error : Type := string.

(** [oauth2.Token] *)
Record Token : Type := mkToken {
  AccessToken : string;
  TokenType : string;
  RefreshToken : string;
  Expiry : Z
}.

(** [user.User] *)
Record User : Type := mkUser { HomeDir : string }.

(** [oauth2.Config], as far as the program looks into it. *)
Record Config : Type := mkConfig { ClientID : string }.

(** [http.Client] built by [config.Client(ctx, tok)]; [tok] may be nil. *)
Record Client : Type := mkClient { client_config : Config; client_token : option Token }.

(** [drive.File]; [Parents] holds the [Id] of each [ParentReference]. *)
Record File : Type := mkFile {
  Title : string;
  Description : string;
  MimeType : string;
  Parents : list string;
  Id : string;
  FileSize : Z;
  DownloadUrl : string
}.

(** An open [os.File]: what [Stat] and a JSON decoder reading a token
    from it will answer. [Decode] fills the token it is given and may
    report an error as well. *)
Record OSFile : Type := mkOSFile {
  file_Stat : Z + Error;
  file_Decode : Token * option Error
}.

(** One call of the progress updater: what the clock reads then
    (nanoseconds) and the two byte counts it is called with. *)
Record Progress : Type := mkProgress {
  at_time : Z;
  current : Z;
  total : Z
}.

(** A resumable media insert, as the program observes it: the progress
    calls made along the way, what the clock reads when [Do] has returned,
    and the pair of a [drive.File] pointer and an error it returns. *)
Record Transfer : Type := mkTransfer {
  progress : list Progress;
  done_time : Z;
  transfer_result : option File * option Error
}.

(** The calls of the Drive client return a Go pair [(pointer, error)];
    the program reads the pointer after an error in one place, so both
    components are kept. The calls of the standard library return a value
    or an error. *)
Record World : Type := mkWorld {
  ioutil_ReadFile : string -> string + Error;
  google_ConfigFromJSON : string -> Config + Error;
  user_Current : option User * option Error;
  os_Open : string -> OSFile + Error;
  os_Create : string -> option Error;
  config_AuthCodeURL : Config -> string;
  fmt_Scan : string + Error;
  config_Exchange : Config -> string -> option Token * option Error;
  drive_New : Client -> option Error;
  time_Now : Z;
  Files_List : option string -> Z -> option (list File) * option Error;
  Files_Insert : File -> option File * option Error;
  Files_Insert_ResumableMedia : File -> Z -> string -> Transfer;
  filepath_Base : string -> string;
  filepath_Ext : string -> string;
  mime_TypeByExtension : string -> string
}.

(** What the program does to the world, in order. *)
Inductive Event : Type :=
| Stdout (s : string)
| Stderr (s : string)
| StdinRead
| ReadFile (path : string)
| UserLookup
| MkdirAll (path : string) (perm : Z)
| Open (path : string)
| Close (path : string)
| Create (path : string)
| EncodeToken (path : string) (tok : option Token)
| OAuthExchange (code : string)
| DriveNew
| DriveList (q : option string) (maxResults : Z)
| DriveInsert (f : File)
| DriveInsertMedia (f : File) (size : Z) (mimeType : string)
| ProgressUpdate (current total : Z).

(** A run: the events so far and how the call ended. *)
Definition Run (A : Type) : Type := list Event * Outcome A.

Definition ret {A : Type} (a : A) : Run A := ([], Ret a).

Definition bind {A B : Type} (m : Run A) (k : A -> Run B) : Run B :=
  match m with
  | (t, Ret a) => let '(t', o) := k a in (t ++ t', o)
  | (t, Exit c) => (t, Exit c)
  | (t, Panic r) => (t, Panic r)
  | (t, OutOfFuel) => (t, OutOfFuel)
  end.

Definition emit (e : Event) : Run unit := ([e], Ret tt).

Definition lift {A : Type} (o : Outcome A) : Run A := ([], o).

Definition panic {A : Type} (r : PanicReason) : Run A := ([], Panic r).

(** [log.Fatalf]: the message goes to standard error (after a time
    stamp, left out here) and the process exits with status 1. *)
Definition log_Fatalf {A : Type} (msg : string) : Run A := ([Stderr msg], Exit 1).

Definition trace {A : Type} (r : Run A) : list Event := fst r.
Definition outcome {A : Type} (r : Run A) : Outcome A := snd r.

Notation "'let*' x ':=' m 'in' k" := (bind m (fun x => k))
  (at level 10, x pattern, m at level 100, k at level 200).
Notation "m ';;' k" := (bind m (fun _ => k))
  (at level 100, k at level 200, right associativity).

(** The exit status of the process, given how [main] ended: 0 after a
    normal return, the argument of [os.Exit], 2 after a panic. *)
Definition exit_status (o : Outcome unit) : option Z :=
  match o with
  | Ret _ => Some 0
  | Exit c => Some c
  | Panic _ => Some 2
  | OutOfFuel => None
  end.

Definition nl : string := String (ascii_of_nat 10) EmptyString.
Definition cr : string := String (ascii_of_nat 13) EmptyString.
Definition dquote : string := String (ascii_of_nat 34) EmptyString.

(** A format without a verb for its argument: [fmt] appends the argument
    in an [EXTRA] note. *)
Definition Sprintf_extra (format : string) (err : Error) : string :=
  format +:+ "%!(EXTRA error=" +:+ err +:+ ")".

(* ================================================================== *)
(** ** The credential cache *)

Section Program.

Variable w : World.

(** [filepath.Join(".credentials", url.QueryEscape("drive-api-cert.json"))] *)
Definition tokenCacheDir : string := ".credentials".
Definition tokenCachePath : string := ".credentials/drive-api-cert.json".

Definition tokenCacheFile : Run (string * option Error) :=
  emit UserLookup ;;
  let '(usr, err) := user_Current w in
  match err with
  | Some _ =>
      match usr with
      | Some u => ret (HomeDir u, err)
      | None => panic NilDereference
      end
  | None =>
      emit (MkdirAll tokenCacheDir 448) ;;
      ret (tokenCachePath, err)
  end.

Definition tokenFromFile (file : string) : Run (option Token * option Error) :=
  emit (Open file) ;;
  match os_Open w file with
  | inr err => ret (None, Some err)
  | inl f =>
      let '(t, err) := file_Decode f in
      emit (Close file) ;;
      ret (Some t, err)
  end.

Definition saveToken (file : string) (token : option Token) : Run unit :=
  emit (Stdout ("Saving credential file to: " +:+ file +:+ nl)) ;;
  emit (Create file) ;;
  match os_Create w file with
  | Some err => log_Fatalf ("Unable to cache oauth token: " +:+ err)
  | None =>
      emit (EncodeToken file token) ;;
      emit (Close file) ;;
      ret tt
  end.

Definition auth_prompt (authURL : string) : string :=
  "Go to the following link in your browser then type the authorization code: "
  +:+ nl +:+ authURL +:+ nl.

Definition getTokenFromWeb (config : Config) : Run (option Token) :=
  let authURL := config_AuthCodeURL w config in
  emit (Stdout (auth_prompt authURL)) ;;
  emit (Stdout ("Enter Verfication Code:" +:+ nl)) ;;
  emit StdinRead ;;
  match fmt_Scan w with
  | inr err => log_Fatalf ("Unable to read authorization code " +:+ err)
  | inl code =>
      emit (OAuthExchange code) ;;
      let '(tok, err) := config_Exchange w config code in
      match err with
      | Some e => log_Fatalf ("Unable to retrieve token from web " +:+ e)
      | None => ret tok
      end
  end.

Definition getClient (config : Config) : Run Client :=
  let* (cacheFile, err) := tokenCacheFile in
  match err with
  | Some e => log_Fatalf ("Unable to get path to cached credential file. " +:+ e)
  | None =>
      let* (tok, err) := tokenFromFile cacheFile in
      match err with
      | Some _ =>
          let* tok := getTokenFromWeb config in
          saveToken cacheFile tok ;;
          ret (mkClient config tok)
      | None => ret (mkClient config tok)
      end
  end.

End Program.

(* ================================================================== *)
(** ** Folder resolution and upload *)

Section Upload.

Variable w : World.

Definition folder_mime : string := "application/vnd.google-apps.folder".

Definition folder_query (folderName : string) : string :=
  "title=" +:+ dquote +:+ folderName +:+ dquote
  +:+ " and mimeType=" +:+ dquote +:+ folder_mime +:+ dquote.

Definition getOrCreateFolder (folderName : string) : Run string :=
  if String.eqb folderName "" then ret ""
  else
    let q := folder_query folderName in
    emit (DriveList (Some q) 1) ;;
    let '(r, err) := Files_List w (Some q) 1 in
    match err with
    | Some e => log_Fatalf (Sprintf_extra "Unable to retrieve foldername." e)
    | None =>
        match r with
        | None => panic NilDereference
        | Some (item :: _) => ret (Id item)
        | Some [] =>
            emit (Stdout ("Folder not found. Create new folder : " +:+ folderName +:+ nl)) ;;
            let f := mkFile folderName "Auto Create by gdrive-upload" folder_mime [] "" 0 "" in
            emit (DriveInsert f) ;;
            let '(r, err) := Files_Insert w f in
            match err with
            | Some e => emit (Stdout ("An error occurred when create folder: " +:+ e +:+ nl))
            | None => ret tt
            end ;;
            match r with
            | None => panic NilDereference
            | Some r => ret (Id r)
            end
        end
    end.

(** The progress call back [showProgress]; the arguments of [Printf] are
    evaluated from left to right. *)
Definition showProgress (getRate : Z -> Z -> Outcome string) (p : Progress) : Run unit :=
  emit (ProgressUpdate (current p) (total p)) ;;
  let* rate := lift (getRate (at_time p) (current p)) in
  let* c := lift (Comma (current p)) in
  let* t := lift (Comma (total p)) in
  emit (Stdout ("Uploaded at " +:+ rate +:+ ", " +:+ c +:+ "/" +:+ t +:+ cr)).

Fixpoint each {A : Type} (f : A -> Run unit) (l : list A) : Run unit :=
  match l with
  | [] => ret tt
  | a :: l' => f a ;; each f l'
  end.

Definition uploadFile (title description parentName mimeType filename : string)
  : Run (option File * option Error) :=
  emit (Open filename) ;;
  match os_Open w filename with
  | inr err =>
      emit (Stdout ("An error occurred: " +:+ err +:+ nl)) ;;
      ret (None, Some err)
  | inl input =>
      match file_Stat input with
      | inr err => ret (None, Some err)
      | inl size =>
          let* parentId := getOrCreateFolder parentName in
          emit (Stdout ("Start upload" +:+ nl)) ;;
          let f := mkFile title description mimeType
                     (if String.eqb parentId "" then [] else [parentId]) "" 0 "" in
          let getRate := MeasureTransferRate (time_Now w) in
          emit (DriveInsertMedia f size mimeType) ;;
          let tr := Files_Insert_ResumableMedia w f size mimeType in
          each (showProgress getRate) (progress tr) ;;
          let '(r, err) := transfer_result tr in
          match err with
          | Some e =>
              emit (Stdout ("An error occurred: " +:+ e +:+ nl)) ;;
              ret (None, Some e)
          | None =>
              match r with
              | None => panic NilDereference
              | Some r =>
                  let bytes := FileSize r in
                  let* rate := lift (getRate (done_time tr) bytes) in
                  let* size := lift (FileSizeFormat bytes false) in
                  emit (Stdout ("Uploaded '" +:+ Title r +:+ "' at " +:+ rate
                                +:+ ", total " +:+ size +:+ nl)) ;;
                  emit (Stdout ("Upload Done. ID : " +:+ Id r +:+ nl)) ;;
                  ret (Some r, None)
              end
          end
      end
  end.

(** The three flags after [flag.Parse]. *)
Record Flags : Type := mkFlags {
  inputPath : string;
  outputFile : string;
  folderName : string
}.

Definition default_flags : Flags := mkFlags "./index.html" "" "./user1".

Definition octet_stream : string := "application/octet-stream".

Definition print_item (i : File) : Run unit :=
  emit (Stdout (Title i +:+ " (" +:+ Id i +:+ ")-(" +:+ DownloadUrl i +:+ ")" +:+ nl)).

Definition main (flags : Flags) : Run unit :=
  emit (ReadFile "client_secret.json") ;;
  match ioutil_ReadFile w "client_secret.json" with
  | inr err => log_Fatalf ("Unable to read client secret file: " +:+ err)
  | inl b =>
  match google_ConfigFromJSON w b with
  | inr err => log_Fatalf ("Unable to parse client secret file to config: " +:+ err)
  | inl config =>
  let* client := getClient w config in
  emit DriveNew ;;
  match drive_New w client with
  | Some err => log_Fatalf ("Unable to retrieve drive Client " +:+ err)
  | None =>
  emit (Stdout ("Read file: " +:+ inputPath flags +:+ nl)) ;;
  let outputTitle :=
    if String.eqb (outputFile flags) "" then filepath_Base w (inputPath flags)
    else outputFile flags in
  emit (Stdout ("Output name: " +:+ outputTitle +:+ nl)) ;;
  let ext := filepath_Ext w (inputPath flags) in
  let mimeType :=
    if String.eqb ext "" then octet_stream else mime_TypeByExtension w ext in
  let mimeType := if String.eqb mimeType "" then octet_stream else mimeType in
  emit (Stdout ("Mime : " +:+ mimeType +:+ nl)) ;;
  uploadFile outputTitle "" (folderName flags) mimeType (inputPath flags) ;;
  emit (DriveList None 10) ;;
  let '(r, err) := Files_List w None 10 in
  match err with
  | Some e => log_Fatalf (Sprintf_extra "Unable to retrieve files." e)
  | None =>
      emit (Stdout ("Files:" +:+ nl)) ;;
      match r with
      | None => panic NilDereference
      | Some [] => emit (Stdout "No files found.")
      | Some items => each print_item items
      end
  end
  end
  end
  end.

End Upload.

(* ================================================================== *)
(** ** Reading a run *)

(** The token the cache file holds, when it can be opened and decoded. *)
Definition cached_token (w : World) : option Token :=
  match os_Open w tokenCachePath with
  | inl f =>
      match file_Decode f with
      | (t, None) => Some t
      | (_, Some _) => None
      end
  | inr _ => None
  end.

(** Why a local file cannot be uploaded: it does not open, or it opens
    and [Stat] fails. *)
Definition file_unavailable (w : World) (filename : string) : option Error :=
  match os_Open w filename with
  | inr e => Some e
  | inl input =>
      match file_Stat input with
      | inr e => Some e
      | inl _ => None
      end
  end.

(** Events of the interactive authorization: anything printed on standard
    output, a read from standard input, a code exchange. *)
Definition is_interactive (e : Event) : bool :=
  match e with
  | Stdout _ | StdinRead | OAuthExchange _ => true
  | _ => false
  end.

(** Requests to the remote service, and the progress calls made from
    within a transfer. *)
Definition is_remote (e : Event) : bool :=
  match e with
  | DriveList _ _ | DriveInsert _ | DriveInsertMedia _ _ _ | ProgressUpdate _ _ => true
  | _ => false
  end.

(** The two requests of folder resolution. *)
Definition is_folder_request (e : Event) : bool :=
  match e with
  | DriveList _ _ | DriveInsert _ => true
  | _ => false
  end.

Definition is_transfer (e : Event) : bool :=
  match e with
  | DriveInsertMedia _ _ _ => true
  | _ => false
  end.

(* ================================================================== *)
(** ** Worlds to run the program in *)

Definition sample_token : Token := mkToken "ya29.a0" "Bearer" "1//0g" 1700000000.

Definition sample_cache : OSFile := mkOSFile (inl 180) (sample_token, None).

Definition sample_input : OSFile :=
  mkOSFile (inl 2048) (mkToken "" "" "" 0, Some "invalid character '<'").

Definition sample_user : User := mkUser "/home/operator".

Definition sample_folder : File :=
  mkFile "./user1" "" folder_mime [] "folder-7" 0 "".

Definition uploaded (f : File) (size : Z) : File :=
  mkFile (Title f) (Description f) (MimeType f) (Parents f) "file-1" size "".

Definition transfer_done (f : File) (size : Z) : Transfer :=
  mkTransfer [mkProgress 5400000000 1024 size; mkProgress 6200000000 size size]
             6300000000 (Some (uploaded f size), None).

Definition transfer_broken (f : File) (size : Z) : Transfer :=
  mkTransfer [mkProgress 5400000000 1024 size] 5900000000
             (None, Some "connection reset by peer").

(** A world in which everything not listed as an argument goes well. *)
Definition make_world
    (lookup : option User * option Error)
    (cache input : OSFile + Error)
    (folders : option (list File) * option Error)
    (created : option File * option Error)
    (transfer : File -> Z -> Transfer) : World :=
  {| ioutil_ReadFile := fun _ => inl "{}";
     google_ConfigFromJSON := fun _ => inl (mkConfig "client-id");
     user_Current := lookup;
     os_Open := fun path => if String.eqb path tokenCachePath then cache else input;
     os_Create := fun _ => None;
     config_AuthCodeURL := fun _ => "https://accounts.example/auth";
     fmt_Scan := inl "4/code";
     config_Exchange := fun _ _ => (Some sample_token, None);
     drive_New := fun _ => None;
     time_Now := 5000000000;
     Files_List := fun q _ =>
       match q with
       | Some _ => folders
       | None => (Some [], None)
       end;
     Files_Insert := fun _ => created;
     Files_Insert_ResumableMedia := fun f size _ => transfer f size;
     filepath_Base := fun _ => "index.html";
     filepath_Ext := fun _ => ".html";
     mime_TypeByExtension := fun _ => "text/html" |}.

(** The cache is filled, the folder exists, the transfer breaks. *)
Definition world_transfer_broken : World :=
  make_world (Some sample_user, None) (inl sample_cache) (inl sample_input)
             (Some [sample_folder], None) (None, None) transfer_broken.

(** The cache is filled, no folder matches, the creation is refused: the
    Drive client returns a nil file with the error. *)
Definition world_creation_refused : World :=
  make_world (Some sample_user, None) (inl sample_cache) (inl sample_input)
             (Some [], None) (None, Some "userRateLimitExceeded") transfer_done.

(** The cache is filled and everything goes well. *)
Definition world_cached : World :=
  make_world (Some sample_user, None) (inl sample_cache) (inl sample_input)
             (Some [sample_folder], None) (None, None) transfer_done.

(** There is no cache file yet. *)
Definition world_first_run : World :=
  make_world (Some sample_user, None) (inr "open .credentials/drive-api-cert.json: no such file or directory")
             (inl sample_input) (Some [sample_folder], None) (None, None) transfer_done.

(** The input file is missing. *)
Definition world_no_input : World :=
  make_world (Some sample_user, None) (inl sample_cache)
             (inr "open ./index.html: no such file or directory")
             (Some [sample_folder], None) (None, None) transfer_done.

(** The lookup of the current user fails and returns no user. *)
Definition world_no_user : World :=
  make_world (None, Some "user: Current not implemented") (inl sample_cache)
             (inl sample_input) (Some [sample_folder], None) (None, None) transfer_done.

(* ================================================================== *)
(** ** Further notions for the statements *)

(** Parse an optional minus sign followed by decimal digits. *)
Definition parse_signed (s : string) : option Z :=
  match s with
  | EmptyString => None
  | String c r =>
      if Ascii.eqb c "-" then option_map Z.opp (parse_decimal r)
      else parse_decimal s
  end.

(** The folder [getOrCreateFolder] asks the service to create. *)
Definition folder_file (name : string) : File :=
  mkFile name "Auto Create by gdrive-upload" folder_mime [] "" 0 "".

(** The metadata [uploadFile] sends with the media: a parent is attached
    when the resolved identifier is not empty. *)
Definition upload_request (title description mimeType parentId : string) : File :=
  mkFile title description mimeType
         (if String.eqb parentId "" then [] else [parentId]) "" 0 "".

(** The title and the MIME type [main] settles on before it calls
    [uploadFile]. *)
Definition main_outputTitle (w : World) (flags : Flags) : string :=
  if String.eqb (outputFile flags) "" then filepath_Base w (inputPath flags)
  else outputFile flags.

Definition main_mimeType (w : World) (flags : Flags) : string :=
  let ext := filepath_Ext w (inputPath flags) in
  let mimeType :=
    if String.eqb ext "" then octet_stream else mime_TypeByExtension w ext in
  if String.eqb mimeType "" then octet_stream else mimeType.

(** The events of looking the cache up: the user, the directory, the
    file. *)
Definition is_cache_lookup (e : Event) : bool :=
  match e with
  | UserLookup | MkdirAll _ _ | Open _ | Close _ => true
  | _ => false
  end.

(** Why the interactive authorization cannot hand over a saved token:
    the code is not read, the exchange is refused, or the cache file
    cannot be created. *)
Definition interactive_failure (w : World) (config : Config) : option Error :=
  match fmt_Scan w with
  | inr e => Some e
  | inl code =>
      match config_Exchange w config code with
      | (_, Some e) => Some e
      | (_, None) => os_Create w tokenCachePath
      end
  end.

(** Every progress call can print its line: the counts are [int64]
    values and the rate closure returns. *)
Definition progress_prints (start : Z) (tr : Transfer) : bool :=
  forallb (fun p =>
             (min_int64 <=? current p) && (current p <=? max_int64)
             && (min_int64 <=? total p) && (total p <=? max_int64)
             && match MeasureTransferRate start (at_time p) (current p) with
                | Ret _ => true
                | _ => false
                end)
          (progress tr).

(** No cache file, and the operator's code is refused by the service. *)
Definition world_code_refused : World :=
  {| ioutil_ReadFile := fun _ => inl "{}";
     google_ConfigFromJSON := fun _ => inl (mkConfig "client-id");
     user_Current := (Some sample_user, None);
     os_Open := fun path =>
       if String.eqb path tokenCachePath then inr "no such file or directory"
       else inl sample_input;
     os_Create := fun _ => None;
     config_AuthCodeURL := fun _ => "https://accounts.example/auth";
     fmt_Scan := inl "4/stale";
     config_Exchange := fun _ _ => (None, Some "invalid_grant");
     drive_New := fun _ => None;
     time_Now := 5000000000;
     Files_List := fun _ _ => (Some [], None);
     Files_Insert := fun _ => (None, None);
     Files_Insert_ResumableMedia := fun f size _ => transfer_done f size;
     filepath_Base := fun _ => "index.html";
     filepath_Ext := fun _ => ".html";
     mime_TypeByExtension := fun _ => "text/html" |}.

(** No folder matches and the service creates one. *)
Definition world_folder_created : World :=
  make_world (Some sample_user, None) (inl sample_cache) (inl sample_input)
             (Some [], None) (Some sample_folder, None) transfer_done.


(** What [uploadFile] does once the media insert is requested: the
    progress calls, then the report of the error or of the uploaded
    file. *)
Definition transfer_report (getRate : Z -> Z -> Outcome string) (tr : Transfer)
  : Run (option File * option Error) :=
  each (showProgress getRate) (progress tr) ;;
  let '(r, err) := transfer_result tr in
  match err with
  | Some e =>
      emit (Stdout ("An error occurred: " +:+ e +:+ nl)) ;;
      ret (None, Some e)
  | None =>
      match r with
      | None => panic NilDereference
      | Some r =>
          let bytes := FileSize r in
          let* rate := lift (getRate (done_time tr) bytes) in
          let* size := lift (FileSizeFormat bytes false) in
          emit (Stdout ("Uploaded '" +:+ Title r +:+ "' at " +:+ rate
                        +:+ ", total " +:+ size +:+ nl)) ;;
          emit (Stdout ("Upload Done. ID : " +:+ Id r +:+ nl)) ;;
          ret (Some r, None)
      end
  end.

(** The last step of [main]: the listing of the catalog. *)
Definition list_files (w : World) : Run unit :=
  emit (DriveList None 10) ;;
  let '(r, err) := Files_List w None 10 in
  match err with
  | Some e => log_Fatalf (Sprintf_extra "Unable to retrieve files." e)
  | None =>
      emit (Stdout ("Files:" +:+ nl)) ;;
      match r with
      | None => panic NilDereference
      | Some [] => emit (Stdout "No files found.")
      | Some items => each print_item items
      end
  end.

(** The events [uploadFile] may produce, given the file it is to open. *)
Definition upload_event (filename : string) (e : Event) : Prop :=
  match e with
  | Open path => path = filename
  | Stdout _ | Stderr _ => True
  | DriveList _ _ | DriveInsert _ | DriveInsertMedia _ _ _ | ProgressUpdate _ _ => True
  | _ => False
  end.

(* ================================================================== *)
(** * Properties *)

(** ** Machine integers *)

Lemma wrap64_id (z : Z) : is_int64 z -> wrap64 z = z.
Proof.
  unfold is_int64, min_int64, max_int64, wrap64. intros H.
  rewrite Z.mod_small by lia. lia.
Qed.

(** ** Decimal text *)

Lemma digit_of_digit_char (d : Z) : 0 <= d < 10 -> digit_of (digit_char d) = d.
Proof.
  intros H. unfold digit_of, digit_char.
  rewrite nat_ascii_embedding by lia. lia.
Qed.

Lemma is_digit_digit_char (d : Z) : 0 <= d < 10 -> is_digit (digit_char d) = true.
Proof.
  intros H. unfold is_digit, digit_char.
  rewrite nat_ascii_embedding by lia.
  apply andb_true_intro. split; apply Nat.leb_le; lia.
Qed.

Lemma is_digit_not_comma (c : ascii) : is_digit c = true -> Ascii.eqb c "," = false.
Proof.
  intros H. apply Ascii.eqb_neq. intros ->. discriminate H.
Qed.

Lemma dec_val_from_shift (s : string) (acc : Z) :
  dec_val_from acc s = acc * 10 ^ Z.of_nat (String.length s) + dec_val_from 0 s.
Proof.
  revert acc. induction s as [|c r IH]; intros acc; cbn [dec_val_from String.length].
  - change (10 ^ Z.of_nat 0) with 1. lia.
  - rewrite (IH (acc * 10 + digit_of c)), (IH (0 * 10 + digit_of c)).
    rewrite Nat2Z.inj_succ, Z.pow_succ_r by lia. lia.
Qed.

Lemma append_nil (s : string) : "" +:+ s = s.
Proof. reflexivity. Qed.

Lemma append_cons (c : ascii) (r s : string) : String c r +:+ s = String c (r +:+ s).
Proof. reflexivity. Qed.

Lemma append_nil_r (s : string) : s +:+ "" = s.
Proof.
  induction s as [|c r IH]; [reflexivity | now rewrite append_cons, IH].
Qed.

Lemma append_assoc (s1 s2 s3 : string) : (s1 +:+ s2) +:+ s3 = s1 +:+ (s2 +:+ s3).
Proof.
  induction s1 as [|c r IH]; [reflexivity | now rewrite !append_cons, IH].
Qed.

Lemma dec_val_from_app (s1 s2 : string) (acc : Z) :
  dec_val_from acc (s1 +:+ s2) = dec_val_from (dec_val_from acc s1) s2.
Proof.
  revert acc. induction s1 as [|c r IH]; intros acc; [reflexivity |].
  rewrite append_cons. cbn [dec_val_from]. apply IH.
Qed.

Lemma all_digits_app (s1 s2 : string) :
  all_digits (s1 +:+ s2) = all_digits s1 && all_digits s2.
Proof.
  induction s1 as [|c r IH]; [reflexivity |].
  rewrite append_cons. cbn [all_digits]. rewrite IH. apply andb_assoc.
Qed.

Lemma string_length_app (s1 s2 : string) :
  String.length (s1 +:+ s2) = (String.length s1 + String.length s2)%nat.
Proof.
  induction s1 as [|c r IH]; [reflexivity |].
  rewrite append_cons. cbn [String.length]. now rewrite IH.
Qed.

(** What the digit loop leaves in front of [acc]. *)
Lemma uitoa_spec (fuel : nat) : forall (n : Z) (acc : string),
  0 <= n < 2 ^ Z.of_nat (S fuel) ->
  exists ds : string,
    uitoa (S fuel) n acc = ds +:+ acc /\
    all_digits ds = true /\
    (0 < String.length ds)%nat /\
    dec_val_from 0 ds = n /\
    (n < 10 -> String.length ds = 1%nat) /\
    (10 <= n < 100 -> String.length ds = 2%nat) /\
    (100 <= n < 1000 -> String.length ds = 3%nat).
Proof.
  induction fuel as [|fuel IH]; intros n acc Hn;
    cbn [uitoa]; destruct (Z.ltb_spec n 10) as [Hlt|Hge].
  1, 3: exists (String (digit_char (n mod 10)) EmptyString);
        rewrite Z.mod_small by lia; cbn;
        rewrite is_digit_digit_char, digit_of_digit_char by lia;
        repeat split; try lia; reflexivity.
  - change (2 ^ Z.of_nat 1) with 2 in Hn. lia.
  - assert (Hq : 0 <= n / 10 < 2 ^ Z.of_nat (S fuel)).
    { rewrite (Nat2Z.inj_succ (S fuel)), Z.pow_succ_r in Hn by lia.
      split; [apply Z.div_pos; lia |].
      apply Z.div_lt_upper_bound; lia. }
    destruct (IH (n / 10) (String (digit_char (n mod 10)) acc) Hq)
      as (ds & Heq & Hd & Hlen & Hval & H1 & H2 & H3).
    exists (ds +:+ String (digit_char (n mod 10)) EmptyString).
    assert (Hm : 0 <= n mod 10 < 10) by (apply Z.mod_pos_bound; lia).
    repeat split.
    + change (uitoa (S fuel) (n / 10) (String (digit_char (n mod 10)) acc)
              = (ds +:+ String (digit_char (n mod 10)) "") +:+ acc).
      rewrite Heq, append_assoc. reflexivity.
    + rewrite all_digits_app, Hd. cbn. now rewrite is_digit_digit_char.
    + rewrite string_length_app. cbn. lia.
    + rewrite dec_val_from_app, Hval. cbn.
      rewrite digit_of_digit_char by lia.
      pose proof (Z.div_mod n 10). lia.
    + lia.
    + intros Hr. rewrite string_length_app, H1; [reflexivity |].
      apply Z.div_lt_upper_bound; lia.
    + intros Hr. rewrite string_length_app, H2; [reflexivity |].
      split; [apply Z.div_le_lower_bound; lia | apply Z.div_lt_upper_bound; lia].
Qed.

Lemma FormatUint_spec (n : Z) : 0 <= n ->
  all_digits (FormatUint n) = true /\
  (0 < String.length (FormatUint n))%nat /\
  dec_val_from 0 (FormatUint n) = n /\
  (n < 10 -> String.length (FormatUint n) = 1%nat) /\
  (10 <= n < 100 -> String.length (FormatUint n) = 2%nat) /\
  (100 <= n < 1000 -> String.length (FormatUint n) = 3%nat).
Proof.
  intros Hn. unfold FormatUint.
  assert (Hb : 0 <= n < 2 ^ Z.of_nat (S (Z.to_nat (Z.log2 n)))).
  { split; [assumption |].
    rewrite Nat2Z.inj_succ, Z2Nat.id by apply Z.log2_nonneg.
    destruct (Z.eq_dec n 0) as [->|Hz]; [reflexivity |].
    apply Z.log2_spec. lia. }
  destruct (uitoa_spec _ n "" Hb) as (ds & Heq & H).
  rewrite Heq, append_nil_r. exact H.
Qed.

Lemma FormatInt_nonneg (v : Z) : 0 <= v -> FormatInt v = FormatUint v.
Proof.
  intros H. unfold FormatInt. destruct (Z.ltb_spec v 0); [lia | reflexivity].
Qed.

(** A group of the loop is three digits wide and is worth the remainder
    it was printed from. *)
Lemma pad_group_spec (r : Z) : 0 <= r < 1000 ->
  String.length (pad_group (FormatInt r)) = 3%nat /\
  all_digits (pad_group (FormatInt r)) = true /\
  dec_val_from 0 (pad_group (FormatInt r)) = r.
Proof.
  intros Hr. rewrite FormatInt_nonneg by lia.
  destruct (FormatUint_spec r (proj1 Hr)) as (Hd & Hlen & Hval & H1 & H2 & H3).
  unfold pad_group.
  destruct (Z.lt_ge_cases r 10) as [Hlt|Hge]; [rewrite (H1 Hlt) |
    destruct (Z.lt_ge_cases r 100) as [Hlt'|Hge'];
      [rewrite (H2 (conj Hge Hlt')) | rewrite (H3 (conj Hge' (proj2 Hr))); cbv beta iota;
       rewrite (H3 (conj Hge' (proj2 Hr))); repeat split; assumption]].
  - rewrite string_length_app, all_digits_app, dec_val_from_app, (H1 Hlt), Hd.
    rewrite (dec_val_from_shift (FormatUint r)), (H1 Hlt), Hval.
    repeat split; cbn; lia.
  - rewrite string_length_app, all_digits_app, dec_val_from_app, (H2 (conj Hge Hlt')), Hd.
    rewrite (dec_val_from_shift (FormatUint r)), (H2 (conj Hge Hlt')), Hval.
    repeat split; cbn; lia.
Qed.

(** *** The digits of a number, three at a time *)

(** What is already written does not change what the loop writes in
    front of it. *)
Lemma uitoa_acc (fuel : nat) : forall (n : Z) (acc : string),
  uitoa fuel n acc = uitoa fuel n "" +:+ acc.
Proof.
  induction fuel as [|fuel IH]; intros n acc; [reflexivity |].
  cbn [uitoa]. destruct (n <? 10); [reflexivity |].
  rewrite (IH (n / 10) (String _ acc)), (IH (n / 10) (String _ "")).
  now rewrite append_assoc.
Qed.

Lemma uitoa_S (fuel : nat) (n : Z) (acc : string) :
  uitoa (S fuel) n acc
  = if n <? 10 then String (digit_char (n mod 10)) acc
    else uitoa fuel (n / 10) (String (digit_char (n mod 10)) acc).
Proof. reflexivity. Qed.

(** More fuel than needed gives the same digits. *)
Lemma uitoa_fuel (f1 : nat) : forall (f2 : nat) (n : Z),
  0 <= n < 2 ^ Z.of_nat (S f1) -> n < 2 ^ Z.of_nat (S f2) ->
  uitoa (S f1) n "" = uitoa (S f2) n "".
Proof.
  induction f1 as [|f1 IH]; intros f2 n H1 H2;
    rewrite (uitoa_S _ n), (uitoa_S f2 n);
    destruct (Z.ltb_spec n 10) as [Hlt|Hge]; try reflexivity.
  - change (2 ^ Z.of_nat 1) with 2 in H1. lia.
  - destruct f2 as [|f2].
    { change (2 ^ Z.of_nat 1) with 2 in H2. lia. }
    rewrite (uitoa_acc (S f1)), (uitoa_acc (S f2)). f_equal.
    rewrite (Nat2Z.inj_succ (S f1)), Z.pow_succ_r in H1 by lia.
    rewrite (Nat2Z.inj_succ (S f2)), Z.pow_succ_r in H2 by lia.
    apply IH.
    + split; [apply Z.div_pos; lia | apply Z.div_lt_upper_bound; lia].
    + apply Z.div_lt_upper_bound; lia.
Qed.

Lemma log2_fuel (n : Z) : 0 <= n -> n < 2 ^ Z.of_nat (S (Z.to_nat (Z.log2 n))).
Proof.
  intros Hn. rewrite Nat2Z.inj_succ, Z2Nat.id by apply Z.log2_nonneg.
  destruct (Z.eq_dec n 0) as [->|Hz]; [reflexivity |].
  apply Z.log2_spec. lia.
Qed.

Lemma FormatUint_digit (n : Z) : 0 <= n < 10 ->
  FormatUint n = String (digit_char n) "".
Proof.
  intros Hn. unfold FormatUint. rewrite uitoa_S.
  destruct (Z.ltb_spec n 10); [| lia]. now rewrite Z.mod_small by lia.
Qed.

Lemma FormatUint_step (n : Z) : 10 <= n ->
  FormatUint n = FormatUint (n / 10) +:+ String (digit_char (n mod 10)) "".
Proof.
  intros Hn. unfold FormatUint at 1. rewrite uitoa_S.
  destruct (Z.ltb_spec n 10); [lia |].
  rewrite uitoa_acc. f_equal. unfold FormatUint.
  pose proof (log2_fuel n ltac:(lia)) as Hb.
  assert (Hq : 0 <= n / 10) by (apply Z.div_pos; lia).
  assert (Hl : 0 < Z.log2 n) by (apply Z.log2_pos; lia).
  destruct (Z.to_nat (Z.log2 n)) as [|k] eqn:Hk; [lia |].
  rewrite (Nat2Z.inj_succ (S k)), Z.pow_succ_r in Hb by lia.
  apply uitoa_fuel.
  - split; [exact Hq | apply Z.div_lt_upper_bound; lia].
  - now apply log2_fuel.
Qed.

Lemma pad_group_digits (r : Z) : 0 <= r < 1000 ->
  pad_group (FormatInt r) = three_digits r.
Proof.
  intros Hr. rewrite FormatInt_nonneg by lia. unfold three_digits.
  destruct (Z.lt_ge_cases r 10) as [H10|H10].
  - rewrite FormatUint_digit by lia.
    rewrite (Z.div_small r 100), (Z.div_small r 10), (Z.mod_small r 10) by lia.
    reflexivity.
  - rewrite FormatUint_step by lia.
    assert (Hq : 0 <= r / 10 < 100).
    { split; [apply Z.div_pos; lia | apply Z.div_lt_upper_bound; lia]. }
    destruct (Z.lt_ge_cases r 100) as [H100|H100].
    + assert (Hq' : 0 <= r / 10 < 10)
        by (split; [lia | apply Z.div_lt_upper_bound; lia]).
      rewrite FormatUint_digit by exact Hq'.
      rewrite (Z.div_small r 100) by lia.
      rewrite (Z.mod_small (r / 10) 10) by exact Hq'.
      reflexivity.
    + rewrite (FormatUint_step (r / 10))
        by (apply Z.div_le_lower_bound; lia).
      rewrite Z.div_div by lia. change (10 * 10) with 100.
      rewrite FormatUint_digit
        by (split; [apply Z.div_pos; lia | apply Z.div_lt_upper_bound; lia]).
      reflexivity.
Qed.

(** The decimal text of a number above 999 is the text of its thousands
    followed by the group of its last three digits. *)
Lemma FormatUint_split (v : Z) : 1000 <= v ->
  FormatUint v = FormatUint (v / 1000) +:+ pad_group (FormatInt (v mod 1000)).
Proof.
  intros Hv.
  assert (Hm : 0 <= v mod 1000 < 1000) by (apply Z.mod_pos_bound; lia).
  rewrite (pad_group_digits _ Hm). unfold three_digits.
  rewrite (FormatUint_step v) by lia.
  rewrite (FormatUint_step (v / 10)) by (apply Z.div_le_lower_bound; lia).
  rewrite (FormatUint_step (v / 10 / 10))
    by (rewrite Z.div_div by lia; apply Z.div_le_lower_bound; lia).
  rewrite !Z.div_div by lia. change (10 * 10) with 100. change (100 * 10) with 1000.
  rewrite !append_assoc, !append_cons, !append_nil.
  replace (v mod 1000 / 100) with ((v / 100) mod 10)
    by (Z.div_mod_to_equations; lia).
  replace (v mod 1000 / 10 mod 10) with ((v / 10) mod 10)
    by (Z.div_mod_to_equations; lia).
  replace (v mod 1000 mod 10) with (v mod 10)
    by (Z.div_mod_to_equations; lia).
  reflexivity.
Qed.

(** ** [Comma] *)

Lemma insert_middle {A : Type} (l1 l2 : list A) (x y : A) :
  <[length l1 := y]> (l1 ++ x :: l2) = l1 ++ y :: l2.
Proof.
  induction l1 as [|a l1 IH]; [reflexivity |].
  cbn. f_equal. exact IH.
Qed.

Lemma concat_strings_app (l1 l2 : list string) :
  concat_strings (l1 ++ l2) = concat_strings l1 +:+ concat_strings l2.
Proof.
  induction l1 as [|s l1 IH]; [reflexivity |].
  cbn [app concat_strings]. now rewrite IH, append_assoc.
Qed.

Lemma groups_length (gs : list string) : Forall is_group gs ->
  String.length (concat_strings gs) = (3 * length gs)%nat.
Proof.
  induction 1 as [|g gs [Hl _] _ IH]; [reflexivity |].
  cbn [concat_strings length]. rewrite string_length_app, Hl, IH. lia.
Qed.

Lemma groups_all_digits (gs : list string) : Forall is_group gs ->
  all_digits (concat_strings gs) = true.
Proof.
  induction 1 as [|g gs [_ Hd] _ IH]; [reflexivity |].
  cbn [concat_strings]. now rewrite all_digits_app, Hd, IH.
Qed.

(** The loop of [Comma], started with [j] on the last free slot: it stops
    with a head below 1000 and has written one group for every division,
    and the head and the groups together are worth what it started from. *)
Lemma Comma_loop_spec (fuel : nat) :
  forall (v : Z) (pre : list string) (x : string) (suf : list string),
    (length pre < fuel)%nat ->
    is_int64 (Z.of_nat (length pre)) ->
    is_int64 v ->
    0 <= v < 1000 ^ (Z.of_nat (length pre) + 1) ->
    exists (v' : Z) (pre' : list string) (x' : string) (gs : list string),
      Comma_loop fuel v (pre ++ x :: suf) (Z.of_nat (length pre))
      = Ret (v', pre' ++ x' :: gs ++ suf, Z.of_nat (length pre')) /\
      0 <= v' <= 999 /\
      Forall is_group gs /\
      v = v' * 1000 ^ Z.of_nat (length gs) + dec_val_from 0 (concat_strings gs) /\
      FormatUint v = FormatUint v' +:+ concat_strings gs /\
      (length pre' + length gs = length pre)%nat.
Proof.
  induction fuel as [|fuel IH]; intros v pre x suf Hfuel Hj Hv Hb; [lia |].
  cbn [Comma_loop]. destruct (Z.ltb_spec 999 v) as [Hbig|Hsmall].
  - destruct pre as [|y0 pre0] using rev_ind.
    { cbn in Hb. lia. }
    clear IHpre0. rewrite length_app in *. cbn [length] in *.
    assert (Hin : in_range (Z.of_nat (length pre0 + 1))
                    (length ((pre0 ++ [y0]) ++ x :: suf)) = true).
    { unfold in_range. rewrite !length_app. cbn [length].
      apply andb_true_intro. split; [apply Z.leb_le | apply Z.ltb_lt]; lia. }
    rewrite Hin.
    rewrite Z.rem_mod_nonneg, Z.quot_div_nonneg by lia.
    assert (Hq : 0 <= v / 1000 < 1000 ^ (Z.of_nat (length pre0) + 1)).
    { split; [apply Z.div_pos; lia |].
      apply Z.div_lt_upper_bound; [lia |].
      replace (Z.of_nat (length pre0 + 1) + 1) with (Z.succ (Z.of_nat (length pre0) + 1)) in Hb by lia.
      rewrite Z.pow_succ_r in Hb by lia. lia. }
    assert (Hqv : v / 1000 <= v) by (apply Z.div_le_upper_bound; lia).
    unfold is_int64, min_int64, max_int64 in Hj, Hv.
    rewrite (wrap64_id (v / 1000)) by (unfold is_int64, min_int64, max_int64; lia).
    rewrite (wrap64_id (Z.of_nat (length pre0 + 1) - 1))
      by (unfold is_int64, min_int64, max_int64; lia).
    replace (Z.to_nat (Z.of_nat (length pre0 + 1))) with (length (pre0 ++ [y0]))
      by (rewrite length_app; cbn [length]; lia).
    rewrite insert_middle.
    replace (Z.of_nat (length pre0 + 1) - 1) with (Z.of_nat (length pre0)) by lia.
    rewrite <- app_assoc. cbn [app].
    set (p := pad_group (FormatInt (v mod 1000))).
    assert (Hm : 0 <= v mod 1000 < 1000) by (apply Z.mod_pos_bound; lia).
    destruct (pad_group_spec (v mod 1000) Hm) as (Hpl & Hpd & Hpv). fold p in Hpl, Hpd, Hpv.
    destruct (IH (v / 1000) pre0 y0 (p :: suf)) as (v' & pre' & x' & gs & Heq & Hv' & Hgs & Hval & Htxt & Hlen);
      [lia | unfold is_int64, min_int64, max_int64; lia
       | unfold is_int64, min_int64, max_int64; lia | exact Hq |].
    exists v', pre', x', (gs ++ [p]).
    rewrite Heq, <- app_assoc. cbn [app].
    repeat split; try lia.
    + apply Forall_app. split; [exact Hgs |]. constructor; [split; assumption | constructor].
    + rewrite concat_strings_app, dec_val_from_app. cbn [concat_strings].
      rewrite append_nil_r, (dec_val_from_shift p), Hpl.
      rewrite length_app. cbn [length].
      replace (Z.of_nat (length gs + 1)) with (Z.succ (Z.of_nat (length gs))) by lia.
      rewrite Z.pow_succ_r by lia. rewrite Hpv.
      pose proof (Z.div_mod v 1000). change (10 ^ Z.of_nat 3) with 1000. lia.
    + rewrite (FormatUint_split v) by lia. fold p.
      rewrite Htxt, concat_strings_app. cbn [concat_strings].
      now rewrite append_nil_r, append_assoc.
    + rewrite length_app. cbn [length]. lia.
  - exists v, pre, x, []. cbn [app length concat_strings dec_val_from].
    repeat split; try lia; [constructor | now rewrite append_nil_r].
Qed.

Lemma in_range_spec (j : Z) (len : nat) :
  in_range j len = true <-> 0 <= j < Z.of_nat len.
Proof.
  unfold in_range. rewrite andb_true_iff, Z.leb_le, Z.ltb_lt. reflexivity.
Qed.

(** [Comma] on an [int64] other than the smallest: the sign, a head of
    one to three digits and the groups after it, joined by the separator;
    head and groups are the decimal text of the absolute value. *)
Lemma Comma_shape (v : Z) : min_int64 < v <= max_int64 ->
  exists (v' : Z) (gs : list string),
    Comma v = Ret ((if v <? 0 then "-" else "") +:+ Join (FormatUint v' :: gs) ",") /\
    0 <= v' <= 999 /\
    Forall is_group gs /\
    Z.abs v = v' * 1000 ^ Z.of_nat (length gs) + dec_val_from 0 (concat_strings gs) /\
    FormatUint (Z.abs v) = FormatUint v' +:+ concat_strings gs.
Proof.
  intros Hv. unfold min_int64, max_int64 in Hv.
  assert (Hn : (if v <? 0 then wrap64 (0 - v) else v) = Z.abs v).
  { destruct (Z.ltb_spec v 0).
    - rewrite wrap64_id by (unfold is_int64, min_int64, max_int64; lia). lia.
    - lia. }
  destruct (Comma_loop_spec Comma_fuel (Z.abs v) (replicate 6 "") "" [])
    as (v' & pre' & x' & gs & Heq & Hv' & Hgs & Hval & Htxt & Hlen).
  - cbn. unfold Comma_fuel. lia.
  - cbn. unfold is_int64, min_int64, max_int64. lia.
  - unfold is_int64, min_int64, max_int64. lia.
  - cbn. lia.
  - exists v', gs. repeat split; try assumption; try lia.
    unfold Comma. rewrite Hn.
    change (replicate 7 "") with (replicate 6 "" ++ ["" ]).
    change (Z.of_nat (length (replicate 6 "" ++ [""])) - 1)
      with (Z.of_nat (length (replicate 6 ""))).
    rewrite Heq. cbn [obind]. rewrite app_nil_r.
    assert (Hin : in_range (Z.of_nat (length pre')) (length (pre' ++ x' :: gs)) = true).
    { apply in_range_spec. rewrite length_app. cbn [length]. lia. }
    rewrite Hin, Nat2Z.id, insert_middle, drop_app_length.
    unfold Itoa. rewrite FormatInt_nonneg by lia. reflexivity.
Qed.

Lemma strip_separators_app (s1 s2 : string) :
  strip_separators (s1 +:+ s2) = strip_separators s1 +:+ strip_separators s2.
Proof.
  induction s1 as [|c r IH]; [reflexivity |].
  rewrite append_cons. cbn [strip_separators].
  destruct (Ascii.eqb c ","); [exact IH | now rewrite append_cons, IH].
Qed.

Lemma strip_separators_digits (s : string) :
  all_digits s = true -> strip_separators s = s.
Proof.
  induction s as [|c r IH]; [reflexivity |].
  cbn [all_digits strip_separators]. intros [Hc Hr]%andb_true_iff.
  now rewrite (is_digit_not_comma c Hc), (IH Hr).
Qed.

Lemma strip_separators_Join (x : string) (gs : list string) :
  all_digits x = true -> Forall is_group gs ->
  strip_separators (Join (x :: gs) ",") = x +:+ concat_strings gs.
Proof.
  intros Hx Hgs. revert x Hx. induction Hgs as [|g gs [_ Hg] _ IH]; intros x Hx.
  - cbn [Join concat_strings]. rewrite append_nil_r. now apply strip_separators_digits.
  - change (Join (x :: g :: gs) ",") with (x +:+ "," +:+ Join (g :: gs) ",").
    rewrite !strip_separators_app, (strip_separators_digits x Hx), (IH g Hg).
    reflexivity.
Qed.

Lemma parse_decimal_digits (s : string) :
  (0 < String.length s)%nat -> all_digits s = true ->
  parse_decimal s = Some (dec_val_from 0 s).
Proof.
  intros Hlen Hd. destruct s as [|c r]; [cbn in Hlen; lia |].
  unfold parse_decimal. now rewrite Hd.
Qed.

(** *** Grouping from the right *)

Lemma insert_separators_short (s : string) :
  (String.length s <= 3)%nat -> insert_separators s = s.
Proof.
  destruct s as [|a [|b [|c [|d s]]]]; cbn; intros H; try reflexivity. lia.
Qed.

Lemma insert_separators_app (s t : string) :
  (0 < String.length s)%nat -> (0 < String.length t)%nat ->
  (String.length t mod 3 = 0)%nat ->
  insert_separators (s +:+ t) = insert_separators s +:+ "," +:+ insert_separators t.
Proof.
  intros Hs Ht Hmod. induction s as [|c r IH]; [cbn in Hs; lia |].
  rewrite append_cons. cbn [insert_separators].
  rewrite string_length_app.
  destruct r as [|c' r'].
  - rewrite append_nil. cbn [String.length Nat.add].
    destruct (Nat.ltb_spec 0 (String.length t)) as [_|]; [| lia].
    rewrite Hmod. reflexivity.
  - assert (Hr : (0 < String.length (String c' r'))%nat) by (cbn; lia).
    rewrite (IH Hr).
    replace ((String.length (String c' r') + String.length t) mod 3)%nat
      with (String.length (String c' r') mod 3)%nat
      by (rewrite (Nat.Div0.add_mod _ (String.length t)), Hmod, Nat.add_0_r;
          now rewrite Nat.Div0.mod_mod).
    destruct (Nat.ltb_spec 0 (String.length (String c' r') + String.length t)) as [_|];
      [| cbn in *; lia].
    destruct (Nat.ltb_spec 0 (String.length (String c' r'))) as [_|]; [| lia].
    cbn [andb].
    destruct (String.length (String c' r') mod 3 =? 0)%nat; reflexivity.
Qed.

Lemma insert_separators_groups (gs : list string) : Forall is_group gs ->
  forall x : string, (0 < String.length x <= 3)%nat ->
  insert_separators (x +:+ concat_strings gs) = Join (x :: gs) ",".
Proof.
  induction 1 as [|g gs Hg Hgs IH]; intros x Hx.
  - cbn [concat_strings Join]. rewrite append_nil_r.
    apply insert_separators_short. lia.
  - change (Join (x :: g :: gs) ",") with (x +:+ "," +:+ Join (g :: gs) ",").
    pose proof (groups_length (g :: gs) (Forall_cons_2 _ _ _ Hg Hgs)) as Hlen.
    cbn [length] in Hlen.
    rewrite insert_separators_app.
    + rewrite (insert_separators_short x) by lia.
      cbn [concat_strings]. rewrite (IH g); [reflexivity |].
      destruct Hg as [-> _]. lia.
    + lia.
    + rewrite Hlen. lia.
    + rewrite Hlen, Nat.mul_comm. apply Nat.Div0.mod_mul.
Qed.

(** [Comma] refines the grouping of the specification on every [int64]
    but the smallest. *)
Lemma Comma_groups (v : Z) : min_int64 < v <= max_int64 ->
  Comma v = Ret (groupThousands_spec v).
Proof.
  intros Hv.
  destruct (Comma_shape v Hv) as (v' & gs & Heq & Hv' & Hgs & _ & Htxt).
  rewrite Heq. unfold groupThousands_spec. rewrite Htxt. do 2 f_equal.
  symmetry. apply insert_separators_groups; [exact Hgs |].
  destruct (FormatUint_spec v' (proj1 Hv')) as (_ & Hpos & _ & H1 & H2 & H3).
  split; [exact Hpos |].
  destruct (Z.lt_ge_cases v' 10); [rewrite H1 by lia; lia |].
  destruct (Z.lt_ge_cases v' 100); [rewrite H2 by lia; lia |].
  rewrite H3 by lia. lia.
Qed.

(** C5: [Comma 1234567] is ["1,234,567"] and [Comma (-42)] is ["-42"]; and
    for every non-negative [int64] [n], [Comma n] returns a string from
    which, once the separators are stripped, the decimal parser gets [n]
    back. *)
Theorem Comma_roundtrip (n : Z) (Hn : 0 <= n <= max_int64) :
  Comma 1234567 = Ret "1,234,567" /\
  Comma (-42) = Ret "-42" /\
  exists s : string,
    Comma n = Ret s /\ parse_decimal (strip_separators s) = Some n.
Proof.
  split; [vm_compute; reflexivity |].
  split; [vm_compute; reflexivity |].
  assert (Hn' : min_int64 < n <= max_int64) by (unfold min_int64; lia).
  destruct (Comma_shape n Hn') as (v' & gs & Heq & Hv' & Hgs & Hval & _).
  destruct (Z.ltb_spec n 0) as [Hneg|_]; [lia |].
  rewrite append_nil, Z.abs_eq in * by lia.
  destruct (FormatUint_spec v' (proj1 Hv')) as (Hd & Hlen & Hhead & _).
  exists (Join (FormatUint v' :: gs) ","). split; [exact Heq |].
  rewrite (strip_separators_Join _ _ Hd Hgs).
  rewrite parse_decimal_digits.
  - f_equal. rewrite dec_val_from_app, dec_val_from_shift, Hhead.
    rewrite (groups_length gs Hgs), Hval.
    replace (Z.of_nat (3 * length gs)) with (3 * Z.of_nat (length gs)) by lia.
    rewrite Z.pow_mul_r by lia. reflexivity.
  - rewrite string_length_app. lia.
  - now rewrite all_digits_app, Hd, (groups_all_digits gs Hgs).
Qed.

Lemma Comma_roundtrip_witness :
  0 <= 9007199254740993 <= max_int64 /\
  exists s : string,
    Comma 9007199254740993 = Ret s /\
    parse_decimal (strip_separators s) = Some 9007199254740993.
Proof.
  split.
  - unfold max_int64. lia.
  - apply (Comma_roundtrip 9007199254740993). unfold max_int64. lia.
Defined.

(** C4: on the smallest [int64] the negation [0 - v] wraps around to [v]
    itself; the loop is skipped, [strconv.Itoa] prints the sign a second
    time, and no separator is inserted: the result is not the sign
    followed by the grouping of the absolute value. *)
Theorem Comma_min_int64 :
  is_int64 min_int64 /\
  wrap64 (0 - min_int64) = min_int64 /\
  Comma min_int64 = Ret "--9223372036854775808" /\
  groupThousands_spec min_int64 = "-9,223,372,036,854,775,808" /\
  Comma min_int64 <> Ret (groupThousands_spec min_int64).
Proof.
  split; [unfold is_int64, min_int64, max_int64; lia |].
  repeat split; try (vm_compute; reflexivity).
  vm_compute. discriminate.
Qed.

(** ** [FileSizeFormat] *)

(** Up to 1000 bytes the loop is not entered. *)
Lemma first_tier_check :
  forallb (fun n => negb (f64_gt (float64_of_int (Z.of_nat n)) (float64_of_int 1000)))
          (seq 0 1001) = true.
Proof. vm_compute. reflexivity. Qed.

Lemma FileSizeFormat_first_tier (bytes : Z) : 0 <= bytes <= 1000 ->
  FileSizeFormat_scale bytes = Ret (float64_of_int bytes, "B").
Proof.
  intros Hb.
  assert (Hgt : f64_gt (float64_of_int bytes) (float64_of_int 1000) = false).
  { pose proof first_tier_check as Hall.
    rewrite forallb_forall in Hall.
    specialize (Hall (Z.to_nat bytes)).
    rewrite Z2Nat.id in Hall by lia.
    apply negb_true_iff, Hall, in_seq. lia. }
  unfold FileSizeFormat_scale, FileSizeFormat_fuel. cbn [FileSizeFormat_loop].
  rewrite Hgt. reflexivity.
Qed.



(** C1: 1000 bytes stay in the first tier with a numeric part of 1000
    (the loop runs on [value > 1000] only), and above [10^18] bytes the
    index leaves the table of units and the call panics. *)
Theorem FileSizeFormat_boundaries :
  FileSizeFormat 1000 false = Ret "1000.0 B" /\
  FileSizeFormat 999960 false = Ret "1000.0 KB" /\
  FileSizeFormat (2 * 10 ^ 18) false = Panic IndexOutOfRange.
Proof.
  repeat split; vm_compute; reflexivity.
Qed.

(** The size formatter has no integer division in it: it ends by
    returning, by an index out of range, or (in the model) out of fuel. *)
Lemma FileSizeFormat_loop_no_div (fuel : nat) : forall (value : float64) (i : Z),
  FileSizeFormat_loop fuel value i <> Panic IntegerDivideByZero /\
  forall c, FileSizeFormat_loop fuel value i <> Exit c.
Proof.
  induction fuel as [|fuel IH]; intros value i; cbn [FileSizeFormat_loop].
  - split; [discriminate | intros c; discriminate].
  - destruct (f64_gt value (float64_of_int 1000)); [apply IH |].
    split; [discriminate | intros c; discriminate].
Qed.

Lemma FileSizeFormat_no_div (bytes : Z) (forceBytes : bool) :
  FileSizeFormat bytes forceBytes <> Panic IntegerDivideByZero.
Proof.
  unfold FileSizeFormat. destruct forceBytes; [discriminate |].
  unfold FileSizeFormat_scale.
  destruct (FileSizeFormat_loop_no_div FileSizeFormat_fuel (float64_of_int bytes) 0) as [Hd _].
  destruct (FileSizeFormat_loop FileSizeFormat_fuel (float64_of_int bytes) 0)
    as [[value i]| | r |]; cbn [obind omap]; try discriminate.
  - destruct (in_range i (length units)); [| discriminate].
    destruct (units !! Z.to_nat i); discriminate.
  - destruct r; try discriminate. now contradiction Hd.
Qed.

(** C6: while the whole seconds elapsed are below one, the rate closure
    formats the cumulative byte count itself, whatever it is, and the
    division [bytes / seconds] is not reached: the call cannot end in a
    division by zero. *)
Theorem MeasureTransferRate_first_second (start now bytes : Z)
  (Hsub : whole_seconds start now < 1) :
  MeasureTransferRate start now bytes
  = omap (fun s => s +:+ "/s") (FileSizeFormat bytes false) /\
  MeasureTransferRate start now bytes <> Panic IntegerDivideByZero.
Proof.
  assert (Heq : MeasureTransferRate start now bytes
                = omap (fun s => s +:+ "/s") (FileSizeFormat bytes false)).
  { unfold MeasureTransferRate.
    destruct (Z.ltb_spec (whole_seconds start now) 1); [reflexivity | lia]. }
  split; [exact Heq |].
  rewrite Heq. pose proof (FileSizeFormat_no_div bytes false) as Hd.
  destruct (FileSizeFormat bytes false) as [s| | r |]; cbn; try discriminate.
  destruct r; try discriminate. now contradiction Hd.
Qed.

Lemma MeasureTransferRate_first_second_witness :
  whole_seconds 5000000000 5250000000 < 1 /\
  MeasureTransferRate 5000000000 5250000000 0 = Ret "0.0 B/s" /\
  MeasureTransferRate 5000000000 5250000000 0 <> Panic IntegerDivideByZero.
Proof.
  split; [vm_compute; reflexivity |].
  destruct (MeasureTransferRate_first_second 5000000000 5250000000 0) as [Heq Hd];
    [vm_compute; reflexivity |].
  split; [vm_compute; reflexivity | exact Hd].
Defined.

(** After the first second the divisor is at least one: the closure
    never divides by zero. *)
Lemma MeasureTransferRate_no_div_by_zero (start now bytes : Z) :
  MeasureTransferRate start now bytes <> Panic IntegerDivideByZero.
Proof.
  unfold MeasureTransferRate.
  destruct (Z.ltb_spec (whole_seconds start now) 1) as [Hlt|Hge].
  - pose proof (FileSizeFormat_no_div bytes false) as Hd.
    destruct (FileSizeFormat bytes false) as [s| | r |]; cbn; try discriminate.
    destruct r; try discriminate. now contradiction Hd.
  - unfold int64_div.
    destruct (Z.eqb_spec (whole_seconds start now) 0); [lia |].
    cbn [obind].
    pose proof (FileSizeFormat_no_div
                  (wrap64 (Z.quot bytes (whole_seconds start now))) false) as Hd.
    destruct (FileSizeFormat _ false) as [s| | r |]; cbn; try discriminate.
    destruct r; try discriminate. now contradiction Hd.
Qed.

(** The whole seconds of some durations, in nanoseconds. *)
Example whole_seconds_samples :
  map (whole_seconds 5000000000)
      [5000000000; 5000000001; 5999999999; 6000000000; 7500000000]
  = [0; 0; 0; 1; 2].
Proof. vm_compute. reflexivity. Qed.

Example FileSizeFormat_samples :
  FileSizeFormat 0 false = Ret "0.0 B" /\
  FileSizeFormat 1500 false = Ret "1.5 KB" /\
  FileSizeFormat 999 true = Ret "999 B".
Proof. repeat split; vm_compute; reflexivity. Qed.

(** ** Runs *)

Lemma bind_ret {A B : Type} (a : A) (k : A -> Run B) : bind (ret a) k = k a.
Proof. unfold bind, ret. destruct (k a) as [t o]. reflexivity. Qed.

Lemma bind_emit {B : Type} (e : Event) (k : Run B) :
  (emit e ;; k) = (e :: trace k, outcome k).
Proof. unfold bind, emit. destruct k as [t o]. reflexivity. Qed.

Lemma trace_bind_Forall {A B : Type} (P : Event -> Prop) (m : Run A) (k : A -> Run B) :
  Forall P (trace m) -> (forall a, Forall P (trace (k a))) ->
  Forall P (trace (bind m k)).
Proof.
  destruct m as [t [a|c|r|]]; cbn; intros Ht Hk; try exact Ht.
  specialize (Hk a). destruct (k a) as [t' o]. cbn in *.
  apply Forall_app. split; assumption.
Qed.

Lemma In_trace_bind {A B : Type} (e : Event) (m : Run A) (k : A -> Run B) :
  In e (trace m) -> In e (trace (bind m k)).
Proof.
  destruct m as [t [a|c|r|]]; cbn; intros H; try exact H.
  destruct (k a) as [t' o]. cbn. apply in_or_app. now left.
Qed.

Lemma trace_lift_Forall {A : Type} (P : Event -> Prop) (o : Outcome A) :
  Forall P (trace (lift o)).
Proof. constructor. Qed.

Lemma trace_emit_Forall (P : Event -> Prop) (e : Event) :
  P e -> Forall P (trace (emit e)).
Proof. intros H. repeat constructor. exact H. Qed.

Lemma trace_ret_Forall {A : Type} (P : Event -> Prop) (a : A) :
  Forall P (trace (ret a)).
Proof. constructor. Qed.

Lemma trace_each_Forall {A : Type} (P : Event -> Prop) (f : A -> Run unit) (l : list A) :
  (forall a, Forall P (trace (f a))) -> Forall P (trace (each f l)).
Proof.
  intros Hf. induction l as [|a l IH]; cbn [each].
  - apply trace_ret_Forall.
  - apply trace_bind_Forall; [apply Hf | intros _; exact IH].
Qed.

(** The progress call back prints and does nothing else. *)
Lemma showProgress_events (P : Event -> Prop)
  (getRate : Z -> Z -> Outcome string) (p : Progress) :
  P (ProgressUpdate (current p) (total p)) -> (forall s, P (Stdout s)) ->
  Forall P (trace (showProgress getRate p)).
Proof.
  intros Hp Hs. unfold showProgress.
  apply trace_bind_Forall; [now apply trace_emit_Forall | intros _].
  apply trace_bind_Forall; [apply trace_lift_Forall | intros rate].
  apply trace_bind_Forall; [apply trace_lift_Forall | intros c].
  apply trace_bind_Forall; [apply trace_lift_Forall | intros t].
  apply trace_emit_Forall, Hs.
Qed.

(** ** The credential cache *)

Lemma tokenCacheFile_err (w : World) (usr : option User) (e : Error) :
  user_Current w = (usr, Some e) ->
  tokenCacheFile w
  = ([UserLookup],
     match usr with
     | Some u => Ret (HomeDir u, Some e)
     | None => Panic NilDereference
     end).
Proof.
  intros Herr. unfold tokenCacheFile. rewrite Herr. destruct usr; reflexivity.
Qed.

Lemma getClient_err (w : World) (config : Config) (usr : option User) (e : Error) :
  user_Current w = (usr, Some e) ->
  getClient w config
  = match usr with
    | Some u =>
        ([UserLookup; Stderr ("Unable to get path to cached credential file. " +:+ e)],
         Exit 1)
    | None => ([UserLookup], Panic NilDereference)
    end.
Proof.
  intros Herr. unfold getClient. rewrite (tokenCacheFile_err w usr e Herr).
  destruct usr; reflexivity.
Qed.

(** C10: when the lookup of the current user reports an error,
    [tokenCacheFile] reads [usr.HomeDir] to build what it returns: with a
    nil user it panics, and [getClient] never gets the error to report;
    with a user it returns that user's home directory next to the
    error. *)
Theorem tokenCacheFile_lookup_failure (w : World) (config : Config)
  (usr : option User) (e : Error) (Herr : user_Current w = (usr, Some e)) :
  tokenCacheFile w
  = ([UserLookup],
     match usr with
     | Some u => Ret (HomeDir u, Some e)
     | None => Panic NilDereference
     end) /\
  getClient w config
  = match usr with
    | Some u =>
        ([UserLookup; Stderr ("Unable to get path to cached credential file. " +:+ e)],
         Exit 1)
    | None => ([UserLookup], Panic NilDereference)
    end.
Proof.
  split; [now apply tokenCacheFile_err | now apply getClient_err].
Qed.

Lemma tokenCacheFile_lookup_failure_witness :
  user_Current world_no_user = (None, Some "user: Current not implemented") /\
  tokenCacheFile world_no_user = ([UserLookup], Panic NilDereference) /\
  getClient world_no_user (mkConfig "client-id") = ([UserLookup], Panic NilDereference).
Proof.
  split; [reflexivity |].
  exact (tokenCacheFile_lookup_failure world_no_user (mkConfig "client-id")
           None "user: Current not implemented" eq_refl).
Defined.

Lemma tokenCacheFile_ok (w : World) (usr : option User) :
  user_Current w = (usr, None) ->
  tokenCacheFile w = ([UserLookup; MkdirAll tokenCacheDir 448], Ret (tokenCachePath, None)).
Proof.
  intros H. unfold tokenCacheFile. rewrite H. reflexivity.
Qed.

(** With the cache path in hand and a token in the cache, the client is
    built from that token after four events. *)
Lemma getClient_cache_hit (w : World) (config : Config) (usr : option User) (tok : Token) :
  user_Current w = (usr, None) -> cached_token w = Some tok ->
  getClient w config
  = ([UserLookup; MkdirAll tokenCacheDir 448; Open tokenCachePath; Close tokenCachePath],
     Ret (mkClient config (Some tok))).
Proof.
  intros Hu Hc. unfold getClient. rewrite (tokenCacheFile_ok w usr Hu).
  unfold cached_token in Hc. unfold tokenFromFile.
  destruct (os_Open w tokenCachePath) as [f|e] eqn:Hopen; [| discriminate].
  cbn. rewrite Hopen.
  destruct (file_Decode f) as [t [e|]] eqn:Hdec; [discriminate |].
  injection Hc as ->. reflexivity.
Qed.

(** What a failed load of the cache file leaves behind: the error is
    returned to the caller. *)
Lemma tokenFromFile_miss (w : World) : cached_token w = None ->
  exists (t : option Token) (e : Error) (tr : list Event),
    tokenFromFile w tokenCachePath = (Open tokenCachePath :: tr, Ret (t, Some e)) /\
    Forall (fun ev => ev = Close tokenCachePath) tr.
Proof.
  intros Hc. unfold cached_token in Hc. unfold tokenFromFile.
  destruct (os_Open w tokenCachePath) as [f|e] eqn:Hopen.
  - destruct (file_Decode f) as [t [e|]] eqn:Hdec; [| discriminate].
    exists (Some t), e, [Close tokenCachePath]. split; [reflexivity |].
    repeat constructor.
  - exists None, e, []. split; [reflexivity | constructor].
Qed.

(** A run of [getClient] that opens the cache file has got the cache
    path: the lookup of the current user reported no error. *)
Lemma getClient_opens_cache (w : World) (config : Config) :
  In (Open tokenCachePath) (trace (getClient w config)) ->
  snd (user_Current w) = None.
Proof.
  destruct (user_Current w) as [usr [e|]] eqn:Hu; [| reflexivity].
  rewrite (getClient_err w config usr e Hu).
  destruct usr; cbn; intros H; repeat (destruct H as [H|H]; [discriminate |]);
    contradiction.
Qed.

(** C7: in a run where the cache file opens and decodes to a token,
    [getClient] prints nothing, reads nothing from standard input and
    exchanges no code. In a run where the load of the cache file is
    attempted and the file is absent or unreadable, [tokenFromFile] returns
    the error instead of ending the process, and [getClient] goes on with
    [getTokenFromWeb]: the authorization URL is printed and standard input
    is read. *)
Theorem getClient_cache (hit miss : World) (config : Config) (tok : Token)
  (Hhit : cached_token hit = Some tok)
  (Hload : In (Open tokenCachePath) (trace (getClient miss config)))
  (Hmiss : cached_token miss = None) :
  Forall (fun e => is_interactive e = false) (trace (getClient hit config)) /\
  (exists (t : option Token) (e : Error),
     outcome (tokenFromFile miss tokenCachePath) = Ret (t, Some e)) /\
  (exists (loaded rest : list Event),
     let web :=
       let* tok := getTokenFromWeb miss config in
       saveToken miss tokenCachePath tok ;;
       ret (mkClient config tok) in
     Forall (fun e => is_interactive e = false) loaded /\
     getClient miss config = (loaded ++ trace web, outcome web) /\
     trace (getTokenFromWeb miss config)
     = Stdout (auth_prompt (config_AuthCodeURL miss config))
       :: Stdout ("Enter Verfication Code:" +:+ nl)
       :: StdinRead :: rest) /\
  In StdinRead (trace (getClient miss config)) /\
  In (Stdout (auth_prompt (config_AuthCodeURL miss config))) (trace (getClient miss config)).
Proof.
  pose proof (getClient_opens_cache miss config Hload) as Hpath. clear Hload.
  assert (Hweb : exists rest o,
             getTokenFromWeb miss config
             = (Stdout (auth_prompt (config_AuthCodeURL miss config))
                :: Stdout ("Enter Verfication Code:" +:+ nl) :: StdinRead :: rest, o)).
  { unfold getTokenFromWeb. rewrite !bind_emit. eexists _, _. reflexivity. }
  destruct Hweb as (rest & o & Hweb).
  destruct (tokenFromFile_miss miss Hmiss) as (t & e & tr & Hfile & Htr).
  destruct (user_Current miss) as [usr err] eqn:Hu. cbn in Hpath. subst err.
  assert (Hrun : getClient miss config
                 = ((UserLookup :: MkdirAll tokenCacheDir 448 :: Open tokenCachePath :: tr)
                    ++ trace (let* tok := getTokenFromWeb miss config in
                              saveToken miss tokenCachePath tok ;;
                              ret (mkClient config tok)),
                    outcome (let* tok := getTokenFromWeb miss config in
                             saveToken miss tokenCachePath tok ;;
                             ret (mkClient config tok)))).
  { unfold getClient. rewrite (tokenCacheFile_ok miss usr Hu).
    cbn [bind]. rewrite Hfile. cbn [bind].
    destruct (let* tok := getTokenFromWeb miss config in
              saveToken miss tokenCachePath tok ;; ret (mkClient config tok)) as [t' o'].
    reflexivity. }
  split; [| split; [| split; [| split]]].
  - destruct (user_Current hit) as [usr' [e'|]] eqn:Hu'.
    + rewrite (getClient_err hit config usr' e' Hu').
      destruct usr'; repeat constructor.
    + rewrite (getClient_cache_hit hit config usr' tok Hu' Hhit).
      repeat constructor.
  - exists t, e. now rewrite Hfile.
  - exists (UserLookup :: MkdirAll tokenCacheDir 448 :: Open tokenCachePath :: tr), rest.
    cbv zeta. split; [| split].
    + repeat (constructor; [reflexivity |]).
      eapply Forall_impl; [exact Htr |]. intros ev ->. reflexivity.
    + exact Hrun.
    + rewrite Hweb. reflexivity.
  - rewrite Hrun. cbn [trace fst]. apply in_or_app. right.
    apply In_trace_bind. rewrite Hweb. cbn. auto.
  - rewrite Hrun. cbn [trace fst]. apply in_or_app. right.
    apply In_trace_bind. rewrite Hweb. cbn. auto.
Qed.

Lemma getClient_cache_witness :
  cached_token world_cached = Some sample_token /\
  In (Open tokenCachePath) (trace (getClient world_first_run (mkConfig "client-id"))) /\
  cached_token world_first_run = None /\
  Forall (fun e => is_interactive e = false)
         (trace (getClient world_cached (mkConfig "client-id"))) /\
  In StdinRead (trace (getClient world_first_run (mkConfig "client-id"))).
Proof.
  assert (Hopen : In (Open tokenCachePath)
                     (trace (getClient world_first_run (mkConfig "client-id")))).
  { vm_compute. right. right. left. reflexivity. }
  split; [reflexivity |]. split; [exact Hopen |]. split; [reflexivity |].
  destruct (getClient_cache world_cached world_first_run (mkConfig "client-id")
              sample_token eq_refl Hopen eq_refl) as (Hquiet & _ & _ & Hread & _).
  split; [exact Hquiet | exact Hread].
Defined.

(** ** Folder resolution and upload *)

(** The empty name is answered before anything is asked of the service. *)
Lemma getOrCreateFolder_empty (w : World) : getOrCreateFolder w "" = ret "".
Proof. reflexivity. Qed.

(** When no folder matches and the creation returns a nil file with its
    error, the resolver prints the error and then reads the [Id] of the nil
    file. *)
Lemma getOrCreateFolder_nil_after_error (w : World) (name : string) (e : Error) :
  name <> "" ->
  Files_List w (Some (folder_query name)) 1 = (Some [], None) ->
  Files_Insert w (mkFile name "Auto Create by gdrive-upload" folder_mime [] "" 0 "")
  = (None, Some e) ->
  getOrCreateFolder w name
  = ([DriveList (Some (folder_query name)) 1;
      Stdout ("Folder not found. Create new folder : " +:+ name +:+ nl);
      DriveInsert (mkFile name "Auto Create by gdrive-upload" folder_mime [] "" 0 "");
      Stdout ("An error occurred when create folder: " +:+ e +:+ nl)],
     Panic NilDereference).
Proof.
  intros Hname Hlist Hins. unfold getOrCreateFolder.
  destruct (String.eqb_spec name "") as [->|_]; [contradiction |].
  rewrite bind_emit, Hlist, !bind_emit, Hins. reflexivity.
Qed.

(** After the media insert request [uploadFile] only prints: the
    progress lines, then the error or the report on the uploaded file. *)
Ltac only_prints :=
  repeat first
    [ apply trace_ret_Forall
    | apply trace_lift_Forall
    | apply trace_emit_Forall; reflexivity
    | apply trace_each_Forall; intros ?; apply showProgress_events;
        [reflexivity | intros ?; reflexivity]
    | apply trace_bind_Forall; [| intros ?] ].

(** C8: for the empty folder name [getOrCreateFolder] returns the empty
    identifier at once, with no event at all; and [uploadFile], once the
    local file is open and its size known, goes straight to the media
    insert with an empty list of parents, without any folder request
    before or after it. *)
Theorem upload_to_root (w : World) (title description mimeType filename : string)
  (input : OSFile) (size : Z)
  (Hopen : os_Open w filename = inl input)
  (Hstat : file_Stat input = inl size) :
  getOrCreateFolder w "" = ([], Ret "") /\
  exists rest : Run (option File * option Error),
    uploadFile w title description "" mimeType filename
    = (Open filename
       :: Stdout ("Start upload" +:+ nl)
       :: DriveInsertMedia (mkFile title description mimeType [] "" 0 "") size mimeType
       :: trace rest,
       outcome rest) /\
    Forall (fun e => is_folder_request e = false) (trace rest).
Proof.
  split; [reflexivity |].
  unfold uploadFile.
  rewrite bind_emit, Hopen, Hstat, getOrCreateFolder_empty, bind_ret.
  cbn [String.eqb]. rewrite !bind_emit. cbn [trace outcome fst snd].
  match goal with
  | |- exists rest, (_, outcome ?K) = _ /\ _ => exists K
  end.
  split; [reflexivity |].
  apply trace_bind_Forall; [only_prints | intros _].
  destruct (transfer_result _) as [r [e|]]; [only_prints |].
  destruct r as [r|]; [only_prints | constructor].
Qed.

Lemma upload_to_root_witness :
  os_Open world_cached "./index.html" = inl sample_input /\
  file_Stat sample_input = inl 2048 /\
  getOrCreateFolder world_cached "" = ([], Ret "") /\
  exists rest : Run (option File * option Error),
    uploadFile world_cached "index.html" "" "" "text/html" "./index.html"
    = (Open "./index.html"
       :: Stdout ("Start upload" +:+ nl)
       :: DriveInsertMedia (mkFile "index.html" "" "text/html" [] "" 0 "") 2048 "text/html"
       :: trace rest,
       outcome rest) /\
    Forall (fun e => is_folder_request e = false) (trace rest).
Proof.
  split; [reflexivity |]. split; [reflexivity |].
  exact (upload_to_root world_cached "index.html" "" "text/html" "./index.html"
           sample_input 2048 eq_refl eq_refl).
Defined.

(** C9: when the local file does not open, or opens and cannot be
    sized, [uploadFile] returns that error at once: besides the attempt to
    open the file (and the message printed when it fails) nothing happens,
    in particular no request to the service and no progress call. *)
Theorem uploadFile_unavailable (w : World)
  (title description parentName mimeType filename : string) (err : Error)
  (Hfile : file_unavailable w filename = Some err) :
  outcome (uploadFile w title description parentName mimeType filename)
  = Ret (None, Some err) /\
  (trace (uploadFile w title description parentName mimeType filename)
   = [Open filename; Stdout ("An error occurred: " +:+ err +:+ nl)] \/
   trace (uploadFile w title description parentName mimeType filename)
   = [Open filename]) /\
  Forall (fun e => is_remote e = false)
         (trace (uploadFile w title description parentName mimeType filename)).
Proof.
  unfold file_unavailable in Hfile. unfold uploadFile.
  destruct (os_Open w filename) as [input|e].
  - destruct (file_Stat input) as [size|e]; [discriminate |].
    injection Hfile as ->. cbn. repeat split; [now right | repeat constructor].
  - injection Hfile as ->. cbn. repeat split; [now left | repeat constructor].
Qed.

Lemma uploadFile_unavailable_witness :
  file_unavailable world_no_input "./index.html"
  = Some "open ./index.html: no such file or directory" /\
  outcome (uploadFile world_no_input "index.html" "" "./user1" "text/html" "./index.html")
  = Ret (None, Some "open ./index.html: no such file or directory") /\
  Forall (fun e => is_remote e = false)
         (trace (uploadFile world_no_input "index.html" "" "./user1" "text/html" "./index.html")).
Proof.
  split; [reflexivity |].
  destruct (uploadFile_unavailable world_no_input "index.html" "" "./user1" "text/html"
              "./index.html" "open ./index.html: no such file or directory" eq_refl)
    as (Hout & _ & Hquiet).
  split; [exact Hout | exact Hquiet].
Defined.

(** C3: no folder matches and the creation is refused. The resolver
    prints the error and then reads the identifier of the file it did not
    get: the run ends in a nil dereference, before any transfer is
    requested, and the process exits with status 2. *)
Theorem getOrCreateFolder_creation_refused :
  Files_List world_creation_refused (Some (folder_query "./user1")) 1 = (Some [], None) /\
  Files_Insert world_creation_refused
    (mkFile "./user1" "Auto Create by gdrive-upload" folder_mime [] "" 0 "")
  = (None, Some "userRateLimitExceeded") /\
  getOrCreateFolder world_creation_refused "./user1"
  = ([DriveList (Some (folder_query "./user1")) 1;
      Stdout ("Folder not found. Create new folder : ./user1" +:+ nl);
      DriveInsert (mkFile "./user1" "Auto Create by gdrive-upload" folder_mime [] "" 0 "");
      Stdout ("An error occurred when create folder: userRateLimitExceeded" +:+ nl)],
     Panic NilDereference) /\
  outcome (uploadFile world_creation_refused "index.html" "" "./user1" "text/html" "./index.html")
  = Panic NilDereference /\
  Forall (fun e => is_transfer e = false)
         (trace (main world_creation_refused default_flags)) /\
  exit_status (outcome (main world_creation_refused default_flags)) = Some 2.
Proof.
  repeat split; try (vm_compute; reflexivity).
  vm_compute. repeat constructor.
Qed.

(** C2: the transfer breaks with a transport error. [uploadFile] prints
    it and returns it; [main] drops what [uploadFile] returns, goes on to
    list the catalog, and the process ends with status 0. *)
Theorem main_after_broken_transfer :
  outcome (uploadFile world_transfer_broken "index.html" "" "./user1" "text/html" "./index.html")
  = Ret (None, Some "connection reset by peer") /\
  (exists before : list Event,
     trace (main world_transfer_broken default_flags)
     = before ++ [Stdout ("An error occurred: connection reset by peer" +:+ nl);
                  DriveList None 10;
                  Stdout ("Files:" +:+ nl);
                  Stdout "No files found."]) /\
  outcome (main world_transfer_broken default_flags) = Ret tt /\
  exit_status (outcome (main world_transfer_broken default_flags)) = Some 0.
Proof.
  split; [vm_compute; reflexivity |].
  split; [| split; vm_compute; reflexivity].
  eexists (take 15 (trace (main world_transfer_broken default_flags))).
  vm_compute. reflexivity.
Qed.

(* ================================================================== *)
(** * Further properties *)

(** ** Grouping *)

Lemma Comma_total (v : Z) : is_int64 v -> exists s : string, Comma v = Ret s.
Proof.
  intros Hv. destruct (Z.eq_dec v min_int64) as [->|Hne].
  - eexists. vm_compute. reflexivity.
  - destruct (Comma_shape v) as (v' & gs & Heq & _).
    + unfold is_int64 in Hv. lia.
    + eexists. exact Heq.
Qed.

(** X1: [Comma] returns on every [int64]: the seven slots of [parts] are
    enough, no index leaves the slice and the loop ends. *)
Theorem Comma_returns (v : Z) (Hv : is_int64 v) :
  exists s : string, Comma v = Ret s.
Proof. exact (Comma_total v Hv). Qed.

Lemma Comma_returns_witness :
  is_int64 (-1234567) /\ exists s : string, Comma (-1234567) = Ret s.
Proof.
  assert (H : is_int64 (-1234567)) by (unfold is_int64, min_int64, max_int64; lia).
  split; [exact H | exact (Comma_returns (-1234567) H)].
Defined.

Lemma strip_insert_separators (d : string) :
  all_digits d = true -> strip_separators (insert_separators d) = d.
Proof.
  induction d as [|c r IH]; [reflexivity |].
  cbn [all_digits insert_separators]. intros [Hc Hr]%andb_true_iff.
  destruct ((0 <? String.length r)%nat && (String.length r mod 3 =? 0)%nat);
    cbn [strip_separators]; rewrite (is_digit_not_comma c Hc);
    [change (Ascii.eqb "," ",") with true; cbv iota |]; now rewrite (IH Hr).
Qed.

Lemma strip_grouping (v : Z) :
  strip_separators (groupThousands_spec v) = FormatInt v.
Proof.
  unfold groupThousands_spec, FormatInt.
  destruct (FormatUint_spec (Z.abs v) (Z.abs_nonneg v)) as (Hd & _).
  destruct (Z.ltb_spec v 0) as [Hneg|Hpos].
  - rewrite strip_separators_app, (strip_insert_separators _ Hd).
    rewrite Z.abs_neq by lia. reflexivity.
  - rewrite append_nil, (strip_insert_separators _ Hd).
    rewrite Z.abs_eq by lia. reflexivity.
Qed.

(** X2: on every [int64] but the smallest, [Comma] returns the sign
    followed by the digits of the absolute value with a separator every
    three digits from the right; without the separators the result is the
    decimal text [strconv] prints for the number. *)
Theorem Comma_refines_grouping (v : Z) (Hv : min_int64 < v <= max_int64) :
  Comma v = Ret (groupThousands_spec v) /\
  omap strip_separators (Comma v) = Ret (FormatInt v).
Proof.
  rewrite (Comma_groups v Hv). split; [reflexivity |].
  cbn [omap obind]. now rewrite strip_grouping.
Qed.

Lemma Comma_refines_grouping_witness :
  min_int64 < -9007199254740993 <= max_int64 /\
  Comma (-9007199254740993) = Ret "-9,007,199,254,740,993" /\
  omap strip_separators (Comma (-9007199254740993)) = Ret "-9007199254740993".
Proof.
  assert (H : min_int64 < -9007199254740993 <= max_int64)
    by (unfold min_int64, max_int64; lia).
  split; [exact H |].
  destruct (Comma_refines_grouping (-9007199254740993) H) as [Hg Hs].
  split.
  - rewrite Hg. vm_compute. reflexivity.
  - rewrite Hs. vm_compute. reflexivity.
Defined.

Lemma parse_signed_FormatInt (v : Z) : parse_signed (FormatInt v) = Some v.
Proof.
  unfold FormatInt. destruct (Z.ltb_spec v 0) as [Hneg|Hpos].
  - destruct (FormatUint_spec (- v) ltac:(lia)) as (Hd & Hlen & Hval & _).
    change ("-" +:+ FormatUint (- v)) with (String "-" (FormatUint (- v))).
    cbn [parse_signed]. change (Ascii.eqb "-" "-") with true. cbv iota.
    rewrite (parse_decimal_digits _ Hlen Hd), Hval. cbn. f_equal. lia.
  - destruct (FormatUint_spec v Hpos) as (Hd & Hlen & Hval & _).
    destruct (FormatUint v) as [|c r] eqn:Hf; [cbn in Hlen; lia |].
    cbn [parse_signed].
    assert (Hc : Ascii.eqb c "-" = false).
    { cbn [all_digits] in Hd. apply andb_true_iff in Hd as [Hc _].
      apply Ascii.eqb_neq. intros ->. discriminate Hc. }
    rewrite Hc, (parse_decimal_digits _ Hlen Hd), Hval. reflexivity.
Qed.

(** X3: the round trip holds with the sign: for every [int64] but the
    smallest, stripping the separators of what [Comma] returns and parsing
    a signed decimal number gives the argument back. *)
Theorem Comma_signed_roundtrip (v : Z) (Hv : min_int64 < v <= max_int64) :
  exists s : string,
    Comma v = Ret s /\ parse_signed (strip_separators s) = Some v.
Proof.
  exists (groupThousands_spec v). split; [now apply Comma_groups |].
  rewrite strip_grouping. apply parse_signed_FormatInt.
Qed.

Lemma Comma_signed_roundtrip_witness :
  min_int64 < -42 <= max_int64 /\
  exists s : string,
    Comma (-42) = Ret s /\ parse_signed (strip_separators s) = Some (-42).
Proof.
  assert (H : min_int64 < -42 <= max_int64) by (unfold min_int64, max_int64; lia).
  split; [exact H | exact (Comma_signed_roundtrip (-42) H)].
Defined.

(** ** Sizes and rates *)

Lemma first_tier_text_check :
  forallb (fun n =>
             match FileSizeFormat (Z.of_nat n) false with
             | Ret s => String.eqb s (FormatUint (Z.of_nat n) +:+ ".0 B")
             | _ => false
             end)
          (seq 0 1001) = true.
Proof. vm_compute. reflexivity. Qed.

(** X4: up to 1000 bytes, 1000 included, nothing is scaled: the result
    is the byte count itself with one zero decimal and the unit [B]. *)
Theorem FileSizeFormat_first_tier_text (bytes : Z) (Hb : 0 <= bytes <= 1000) :
  FileSizeFormat bytes false = Ret (FormatUint bytes +:+ ".0 B").
Proof.
  pose proof first_tier_text_check as Hall.
  rewrite forallb_forall in Hall.
  specialize (Hall (Z.to_nat bytes)).
  rewrite Z2Nat.id in Hall by lia.
  assert (Hin : In (Z.to_nat bytes) (seq 0 1001)) by (apply in_seq; lia).
  specialize (Hall Hin).
  destruct (FileSizeFormat bytes false) as [s| | |]; try discriminate.
  apply String.eqb_eq in Hall. now subst s.
Qed.

Lemma FileSizeFormat_first_tier_text_witness :
  0 <= 1000 <= 1000 /\ FileSizeFormat 1000 false = Ret "1000.0 B".
Proof.
  assert (H : 0 <= 1000 <= 1000) by lia.
  split; [exact H |].
  rewrite (FileSizeFormat_first_tier_text 1000 H). vm_compute. reflexivity.
Defined.

(** A negative integer converts to a value that is not above 1000. *)
Lemma negative_not_above_1000 (bytes : Z) : bytes < 0 ->
  f64_gt (float64_of_int bytes) (float64_of_int 1000) = false.
Proof.
  intros Hneg. destruct bytes as [|p|p]; try lia.
  unfold f64_gt. set (k := float64_of_int 1000). vm_compute in k.
  unfold float64_of_int, binary_normalize, binary_round.
  destruct (shl_align _ _ _) as [mz ez]. unfold binary_round_aux.
  destruct (shr_fexp prec emax (Z.pos mz) ez loc_Exact) as [mrs' e'].
  destruct (shr_fexp prec emax _ e' loc_Exact) as [mrs'' e''].
  destruct (shr_m mrs'') as [|m|m]; [reflexivity | | reflexivity].
  destruct (e'' <=? emax - prec); reflexivity.
Qed.

(** X5: a negative byte count is never scaled, however large: the loop
    is not entered and the unit is [B]. *)
Theorem FileSizeFormat_negative (bytes : Z) (Hneg : bytes < 0) :
  FileSizeFormat_scale bytes = Ret (float64_of_int bytes, "B") /\
  FileSizeFormat bytes false = Ret (Sprintf_f1 (float64_of_int bytes) +:+ " B").
Proof.
  assert (Hscale : FileSizeFormat_scale bytes = Ret (float64_of_int bytes, "B")).
  { unfold FileSizeFormat_scale, FileSizeFormat_fuel. cbn [FileSizeFormat_loop].
    rewrite (negative_not_above_1000 bytes Hneg). reflexivity. }
  split; [exact Hscale |].
  unfold FileSizeFormat. rewrite Hscale. reflexivity.
Qed.

Lemma FileSizeFormat_negative_witness :
  -5000000 < 0 /\ FileSizeFormat (-5000000) false = Ret "-5000000.0 B".
Proof.
  assert (H : -5000000 < 0) by lia.
  split; [exact H |].
  rewrite (proj2 (FileSizeFormat_negative (-5000000) H)). vm_compute. reflexivity.
Defined.



(** X7: the rate closure never divides by zero, in the first second or
    after it: past the guard [seconds < 1] the divisor is at least one. *)
Theorem MeasureTransferRate_never_divides_by_zero (start now bytes : Z) :
  MeasureTransferRate start now bytes <> Panic IntegerDivideByZero.
Proof. apply MeasureTransferRate_no_div_by_zero. Qed.

(** X8: with nothing sent, the rate is ["0.0 B/s"] whatever the clock
    reads, before or after the first second, and the progress line of an
    empty file is printed without a panic. *)
Theorem zero_bytes_rate (start now : Z) :
  MeasureTransferRate start now 0 = Ret "0.0 B/s" /\
  showProgress (MeasureTransferRate start) (mkProgress now 0 0)
  = ([ProgressUpdate 0 0; Stdout ("Uploaded at 0.0 B/s, 0/0" +:+ cr)], Ret tt).
Proof.
  assert (Hrate : MeasureTransferRate start now 0 = Ret "0.0 B/s").
  { unfold MeasureTransferRate, int64_div.
    destruct (Z.ltb_spec (whole_seconds start now) 1); [vm_compute; reflexivity |].
    destruct (Z.eqb_spec (whole_seconds start now) 0); [lia |].
    cbn [obind]. rewrite Z.quot_0_l by assumption.
    vm_compute. reflexivity. }
  split; [exact Hrate |].
  unfold showProgress. cbn [at_time current total]. rewrite Hrate.
  vm_compute. reflexivity.
Qed.

(** ** Runs, once more *)

Lemma trace_bind {A B : Type} (m : Run A) (k : A -> Run B) :
  trace (bind m k)
  = trace m ++ match outcome m with
               | Ret a => trace (k a)
               | _ => []
               end.
Proof.
  destruct m as [t [a|c|r|]]; cbn; rewrite ?app_nil_r; try reflexivity.
  destruct (k a) as [t' o]. reflexivity.
Qed.

Lemma outcome_bind {A B : Type} (m : Run A) (k : A -> Run B) :
  outcome (bind m k)
  = match outcome m with
    | Ret a => outcome (k a)
    | Exit c => Exit c
    | Panic r => Panic r
    | OutOfFuel => OutOfFuel
    end.
Proof.
  destruct m as [t [a|c|r|]]; cbn; try reflexivity.
  destruct (k a) as [t' o]. reflexivity.
Qed.

Lemma run_eta {A : Type} (m : Run A) : m = (trace m, outcome m).
Proof. destruct m. reflexivity. Qed.

(** ** The credential cache, once more *)

(** X9: with a token in the cache, [getClient] builds the client from
    that very token after looking up the user, making the directory, and
    opening and closing the cache file: the token is not checked with the
    service and the cache is not written again. *)
Theorem getClient_uses_cached_token (w : World) (config : Config)
  (usr : option User) (tok : Token)
  (Hu : user_Current w = (usr, None))
  (Hc : cached_token w = Some tok) :
  getClient w config
  = ([UserLookup; MkdirAll ".credentials" 448;
      Open ".credentials/drive-api-cert.json";
      Close ".credentials/drive-api-cert.json"],
     Ret (mkClient config (Some tok))).
Proof. exact (getClient_cache_hit w config usr tok Hu Hc). Qed.

Lemma getClient_uses_cached_token_witness :
  user_Current world_cached = (Some sample_user, None) /\
  cached_token world_cached = Some sample_token /\
  outcome (getClient world_cached (mkConfig "client-id"))
  = Ret (mkClient (mkConfig "client-id") (Some sample_token)).
Proof.
  split; [reflexivity |]. split; [reflexivity |].
  rewrite (getClient_uses_cached_token world_cached (mkConfig "client-id")
             (Some sample_user) sample_token eq_refl eq_refl).
  reflexivity.
Defined.

(** The run of [getClient] up to the failed load of the cache file. *)
Lemma getClient_miss (w : World) (config : Config) (usr : option User) :
  user_Current w = (usr, None) -> cached_token w = None ->
  exists loaded : list Event,
    Forall (fun e => is_cache_lookup e = true) loaded /\
    getClient w config
    = bind (loaded, Ret tt) (fun _ =>
        let* tok := getTokenFromWeb w config in
        saveToken w tokenCachePath tok ;;
        ret (mkClient config tok)).
Proof.
  intros Hu Hmiss.
  destruct (tokenFromFile_miss w Hmiss) as (t & e & tr & Hfile & Htr).
  exists (UserLookup :: MkdirAll tokenCacheDir 448 :: Open tokenCachePath :: tr).
  split.
  - repeat (constructor; [reflexivity |]).
    eapply Forall_impl; [exact Htr |]. intros ev ->. reflexivity.
  - unfold getClient. rewrite (tokenCacheFile_ok w usr Hu).
    cbn [bind]. rewrite Hfile. cbn [bind].
    destruct (let* tok := getTokenFromWeb w config in
              saveToken w tokenCachePath tok ;; ret (mkClient config tok)) as [t' o'].
    reflexivity.
Qed.

(** X10: on a first run (no usable cache file) in which the operator's
    code is read, the exchange succeeds and the cache file can be created,
    [getClient] exchanges exactly the code it read, writes the token it got
    to the cache file, closes the file, and builds the client from the same
    token. *)
Theorem getClient_first_run (w : World) (config : Config) (usr : option User)
  (code : string) (tok : option Token)
  (Hu : user_Current w = (usr, None))
  (Hmiss : cached_token w = None)
  (Hscan : fmt_Scan w = inl code)
  (Hex : config_Exchange w config code = (tok, None))
  (Hcreate : os_Create w tokenCachePath = None) :
  exists loaded : list Event,
    Forall (fun e => is_cache_lookup e = true) loaded /\
    getClient w config
    = (loaded ++
       [Stdout (auth_prompt (config_AuthCodeURL w config));
        Stdout ("Enter Verfication Code:" +:+ nl);
        StdinRead;
        OAuthExchange code;
        Stdout ("Saving credential file to: " +:+ tokenCachePath +:+ nl);
        Create tokenCachePath;
        EncodeToken tokenCachePath tok;
        Close tokenCachePath],
       Ret (mkClient config tok)).
Proof.
  destruct (getClient_miss w config usr Hu Hmiss) as (loaded & Hq & Hrun).
  exists loaded. split; [exact Hq |]. rewrite Hrun.
  unfold getTokenFromWeb, saveToken. rewrite Hscan, Hex, Hcreate. reflexivity.
Qed.

Lemma getClient_first_run_witness :
  user_Current world_first_run = (Some sample_user, None) /\
  cached_token world_first_run = None /\
  fmt_Scan world_first_run = inl "4/code" /\
  config_Exchange world_first_run (mkConfig "client-id") "4/code" = (Some sample_token, None) /\
  os_Create world_first_run tokenCachePath = None /\
  outcome (getClient world_first_run (mkConfig "client-id"))
  = Ret (mkClient (mkConfig "client-id") (Some sample_token)).
Proof.
  repeat (split; [reflexivity |]).
  destruct (getClient_first_run world_first_run (mkConfig "client-id") (Some sample_user)
              "4/code" (Some sample_token) eq_refl eq_refl eq_refl eq_refl eq_refl)
    as (loaded & _ & Hrun).
  rewrite Hrun. reflexivity.
Defined.

(** X11: on a first run in which the code cannot be read, the exchange
    is refused or the cache file cannot be created, [getClient] ends the
    process with status 1 and a message on standard error; no token is
    written and no client is returned. *)
Theorem getClient_interactive_failure (w : World) (config : Config)
  (usr : option User) (e : Error)
  (Hu : user_Current w = (usr, None))
  (Hmiss : cached_token w = None)
  (Hfail : interactive_failure w config = Some e) :
  outcome (getClient w config) = Exit 1 /\
  (exists (before : list Event) (msg : string),
     trace (getClient w config) = before ++ [Stderr (msg +:+ e)] /\
     Forall (fun ev => match ev with
                       | EncodeToken _ _ | Stderr _ => False
                       | _ => True
                       end) before).
Proof.
  destruct (getClient_miss w config usr Hu Hmiss) as (loaded & Hq & Hrun).
  assert (Hl : Forall (fun ev => match ev with
                                 | EncodeToken _ _ | Stderr _ => False
                                 | _ => True
                                 end) loaded).
  { eapply Forall_impl; [exact Hq |]. intros [] H; try exact I; discriminate H. }
  rewrite Hrun. unfold interactive_failure in Hfail.
  unfold getTokenFromWeb, saveToken.
  destruct (fmt_Scan w) as [code|e1].
  - destruct (config_Exchange w config code) as [tok [e2|]].
    + injection Hfail as ->. split; [reflexivity |].
      eexists (loaded ++ [_; _; _; _]), _. split.
      * cbn. rewrite <- app_assoc. reflexivity.
      * apply Forall_app. split; [exact Hl | repeat constructor].
    + rewrite Hfail. split; [reflexivity |].
      eexists (loaded ++ [_; _; _; _; _; _]), _. split.
      * cbn. rewrite <- app_assoc. reflexivity.
      * apply Forall_app. split; [exact Hl | repeat constructor].
  - injection Hfail as ->. split; [reflexivity |].
    eexists (loaded ++ [_; _; _]), _. split.
    + cbn. rewrite <- app_assoc. reflexivity.
    + apply Forall_app. split; [exact Hl | repeat constructor].
Qed.

Lemma getClient_interactive_failure_witness :
  user_Current world_code_refused = (Some sample_user, None) /\
  cached_token world_code_refused = None /\
  interactive_failure world_code_refused (mkConfig "client-id") = Some "invalid_grant" /\
  outcome (getClient world_code_refused (mkConfig "client-id")) = Exit 1.
Proof.
  repeat (split; [reflexivity |]).
  exact (proj1 (getClient_interactive_failure world_code_refused (mkConfig "client-id")
                  (Some sample_user) "invalid_grant" eq_refl eq_refl eq_refl)).
Defined.

(** ** Folder resolution, once more *)

Lemma folder_query_step (w : World) (name : string) : name <> "" ->
  getOrCreateFolder w name
  = (emit (DriveList (Some (folder_query name)) 1) ;;
     let '(r, err) := Files_List w (Some (folder_query name)) 1 in
     match err with
     | Some e => log_Fatalf (Sprintf_extra "Unable to retrieve foldername." e)
     | None =>
         match r with
         | None => panic NilDereference
         | Some (item :: _) => ret (Id item)
         | Some [] =>
             emit (Stdout ("Folder not found. Create new folder : " +:+ name +:+ nl)) ;;
             emit (DriveInsert (folder_file name)) ;;
             let '(r, err) := Files_Insert w (folder_file name) in
             match err with
             | Some e => emit (Stdout ("An error occurred when create folder: " +:+ e +:+ nl))
             | None => ret tt
             end ;;
             match r with
             | None => panic NilDereference
             | Some r => ret (Id r)
             end
         end
     end).
Proof.
  intros Hname. unfold getOrCreateFolder.
  destruct (String.eqb_spec name "") as [->|_]; [contradiction | reflexivity].
Qed.

(** X12: when no folder of that name exists and the service creates
    one, the resolver returns the identifier of the new folder after one
    query and one creation request; called again once the catalog shows
    that folder, it returns the same identifier after the query alone and
    creates nothing. *)
Theorem getOrCreateFolder_idempotent (before after : World) (name : string)
  (created : File) (others : list File)
  (Hname : name <> "")
  (Hnone : Files_List before (Some (folder_query name)) 1 = (Some [], None))
  (Hins : Files_Insert before (folder_file name) = (Some created, None))
  (Hthen : Files_List after (Some (folder_query name)) 1 = (Some (created :: others), None)) :
  getOrCreateFolder before name
  = ([DriveList (Some (folder_query name)) 1;
      Stdout ("Folder not found. Create new folder : " +:+ name +:+ nl);
      DriveInsert (folder_file name)],
     Ret (Id created)) /\
  getOrCreateFolder after name
  = ([DriveList (Some (folder_query name)) 1], Ret (Id created)).
Proof.
  rewrite !folder_query_step by assumption.
  rewrite Hnone, Hthen. rewrite !bind_emit, Hins. split; reflexivity.
Qed.

Lemma getOrCreateFolder_idempotent_witness :
  "./user1" <> "" /\
  outcome (getOrCreateFolder world_folder_created "./user1") = Ret "folder-7" /\
  getOrCreateFolder world_cached "./user1"
  = ([DriveList (Some (folder_query "./user1")) 1], Ret "folder-7").
Proof.
  assert (Hname : "./user1" <> "") by discriminate.
  split; [exact Hname |].
  destruct (getOrCreateFolder_idempotent world_folder_created world_cached "./user1"
              sample_folder [] Hname eq_refl eq_refl eq_refl) as [H1 H2].
  split; [rewrite H1; reflexivity | exact H2].
Defined.

Lemma getOrCreateFolder_trace (w : World) (name : string) :
  Forall (fun e =>
            match e with
            | DriveList q n =>
                name <> "" /\ q = Some (folder_query name) /\ n = 1
            | DriveInsert f =>
                f = folder_file name /\
                Files_List w (Some (folder_query name)) 1 = (Some [], None)
            | Stdout _ | Stderr _ => True
            | _ => False
            end)
         (trace (getOrCreateFolder w name)).
Proof.
  destruct (String.eqb_spec name "") as [->|Hname]; [constructor |].
  rewrite (folder_query_step w name Hname).
  destruct (Files_List w (Some (folder_query name)) 1) as [r [e|]] eqn:Hlist.
  - repeat constructor. exact Hname.
  - destruct r as [[|item items]|].
    + rewrite !bind_emit.
      destruct (Files_Insert w (folder_file name)) as [[r|] [e|]];
        cbn; repeat constructor; exact Hname.
    + repeat constructor. exact Hname.
    + repeat constructor. exact Hname.
Qed.


(** X13: [getOrCreateFolder] asks the service at most two things. Its
    query is for the given name, capped at one result, and is only made
    for a non-empty name; a folder is only created after that query has
    succeeded with no item, and it is the folder of that name. Nothing is
    transferred and no file is touched. *)
Theorem getOrCreateFolder_requests (w : World) (name : string) :
  Forall (fun e =>
            match e with
            | DriveList q n =>
                name <> "" /\ q = Some (folder_query name) /\ n = 1
            | DriveInsert f =>
                f = folder_file name /\
                Files_List w (Some (folder_query name)) 1 = (Some [], None)
            | Stdout _ | Stderr _ => True
            | _ => False
            end)
         (trace (getOrCreateFolder w name)).
Proof. apply getOrCreateFolder_trace. Qed.

Lemma getOrCreateFolder_events (P : Event -> Prop) (w : World) (name : string) :
  (forall q n, P (DriveList q n)) -> (forall f, P (DriveInsert f)) ->
  (forall s, P (Stdout s)) -> (forall s, P (Stderr s)) ->
  Forall P (trace (getOrCreateFolder w name)).
Proof.
  intros Hl Hi Ho He.
  eapply Forall_impl; [apply getOrCreateFolder_trace |].
  intros [] H; cbn in H; auto; contradiction.
Qed.

(** ** Upload, once more *)

Lemma uploadFile_steps (w : World) (title description parentName mimeType filename : string)
  (input : OSFile) (size : Z) :
  os_Open w filename = inl input -> file_Stat input = inl size ->
  uploadFile w title description parentName mimeType filename
  = (emit (Open filename) ;;
     let* parentId := getOrCreateFolder w parentName in
     emit (Stdout ("Start upload" +:+ nl)) ;;
     emit (DriveInsertMedia (upload_request title description mimeType parentId) size mimeType) ;;
     transfer_report (MeasureTransferRate (time_Now w))
       (Files_Insert_ResumableMedia w
          (upload_request title description mimeType parentId) size mimeType)).
Proof.
  intros Hopen Hstat. unfold uploadFile. rewrite Hopen, Hstat. reflexivity.
Qed.



(** The progress lines and the report never request a transfer. *)
Lemma transfer_report_events (P : Event -> Prop)
  (getRate : Z -> Z -> Outcome string) (tr : Transfer) :
  (forall c t, P (ProgressUpdate c t)) -> (forall s, P (Stdout s)) ->
  Forall P (trace (transfer_report getRate tr)).
Proof.
  intros Hp Hs. unfold transfer_report.
  apply trace_bind_Forall.
  - apply trace_each_Forall. intros p. now apply showProgress_events.
  - intros _. destruct (transfer_result tr) as [r [e|]].
    + apply trace_bind_Forall; [now apply trace_emit_Forall | intros _; constructor].
    + destruct r as [r|]; [| constructor].
      apply trace_bind_Forall; [apply trace_lift_Forall | intros rate].
      apply trace_bind_Forall; [apply trace_lift_Forall | intros size].
      apply trace_bind_Forall; [now apply trace_emit_Forall | intros _].
      apply trace_bind_Forall; [now apply trace_emit_Forall | intros _; constructor].
Qed.

(** X15: once the local file is open and sized and the folder is
    resolved, [uploadFile] requests exactly one transfer. It carries the
    title, description and MIME type it was given, the size [Stat]
    reported, and the resolved folder as its only parent, or no parent when
    the identifier is empty. *)
Theorem uploadFile_request (w : World)
  (title description parentName mimeType filename : string)
  (input : OSFile) (size : Z) (parentId : string)
  (Hopen : os_Open w filename = inl input)
  (Hstat : file_Stat input = inl size)
  (Hfolder : outcome (getOrCreateFolder w parentName) = Ret parentId) :
  exists before after : list Event,
    trace (uploadFile w title description parentName mimeType filename)
    = before
      ++ DriveInsertMedia (upload_request title description mimeType parentId) size mimeType
      :: after /\
    Forall (fun e => is_transfer e = false) before /\
    Forall (fun e => is_transfer e = false) after.
Proof.
  rewrite (uploadFile_steps w _ _ _ _ _ input size Hopen Hstat).
  exists (Open filename :: trace (getOrCreateFolder w parentName)
            ++ [Stdout ("Start upload" +:+ nl)]).
  eexists. split; [| split].
  - rewrite bind_emit. cbn [trace fst]. rewrite trace_bind, Hfolder, !bind_emit.
    cbn [trace fst]. rewrite <- app_comm_cons, <- app_assoc. reflexivity.
  - constructor; [reflexivity |]. apply Forall_app. split; [| repeat constructor].
    apply getOrCreateFolder_events; reflexivity.
  - apply transfer_report_events; reflexivity.
Qed.

Lemma uploadFile_request_witness :
  os_Open world_cached "./index.html" = inl sample_input /\
  file_Stat sample_input = inl 2048 /\
  outcome (getOrCreateFolder world_cached "./user1") = Ret "folder-7" /\
  exists before after : list Event,
    trace (uploadFile world_cached "index.html" "" "./user1" "text/html" "./index.html")
    = before
      ++ DriveInsertMedia (mkFile "index.html" "" "text/html" ["folder-7"] "" 0 "")
                          2048 "text/html"
      :: after.
Proof.
  split; [reflexivity |]. split; [reflexivity |]. split; [reflexivity |].
  destruct (uploadFile_request world_cached "index.html" "" "./user1" "text/html"
              "./index.html" sample_input 2048 "folder-7" eq_refl eq_refl eq_refl)
    as (before & after & Htrace & _).
  exists before, after. exact Htrace.
Defined.

Lemma is_int64_b (v : Z) :
  (min_int64 <=? v) && (v <=? max_int64) = true -> is_int64 v.
Proof.
  intros [H1 H2]%andb_true_iff. apply Z.leb_le in H1, H2. split; assumption.
Qed.

(** When every progress call can print, the calls return. *)
Lemma progress_returns (start : Z) (tr : Transfer) :
  progress_prints start tr = true ->
  outcome (each (showProgress (MeasureTransferRate start)) (progress tr)) = Ret tt.
Proof.
  unfold progress_prints. induction (progress tr) as [|p l IH]; [reflexivity |].
  cbn [forallb each]. intros [Hp Hl]%andb_true_iff.
  apply andb_true_iff in Hp as [Hp Hrate].
  apply andb_true_iff in Hp as [Hp Ht2].
  apply andb_true_iff in Hp as [Hp Ht1].
  apply andb_true_iff in Hp as [Hc1 Hc2].
  destruct (Comma_total (current p)) as [c Hc];
    [split; [now apply Z.leb_le | now apply Z.leb_le] |].
  destruct (Comma_total (total p)) as [t Ht];
    [split; [now apply Z.leb_le | now apply Z.leb_le] |].
  destruct (MeasureTransferRate start (at_time p) (current p)) as [rate| | |] eqn:Hr;
    try discriminate.
  rewrite outcome_bind. unfold showProgress at 1. rewrite bind_emit, Hr, Hc, Ht.
  cbn. exact (IH Hl).
Qed.

(** X16: a transfer that fails is not fatal for [uploadFile]: whatever
    the service returned next to the error, the call prints the error as
    its last line and returns it to the caller with a nil file. *)
Theorem uploadFile_transfer_error (w : World)
  (title description parentName mimeType filename : string)
  (input : OSFile) (size : Z) (parentId : string) (r : option File) (e : Error)
  (Hopen : os_Open w filename = inl input)
  (Hstat : file_Stat input = inl size)
  (Hfolder : outcome (getOrCreateFolder w parentName) = Ret parentId)
  (Hprints : progress_prints (time_Now w)
               (Files_Insert_ResumableMedia w
                  (upload_request title description mimeType parentId) size mimeType)
             = true)
  (Herr : transfer_result
            (Files_Insert_ResumableMedia w
               (upload_request title description mimeType parentId) size mimeType)
          = (r, Some e)) :
  outcome (uploadFile w title description parentName mimeType filename)
  = Ret (None, Some e) /\
  exists before : list Event,
    trace (uploadFile w title description parentName mimeType filename)
    = before ++ [Stdout ("An error occurred: " +:+ e +:+ nl)].
Proof.
  rewrite (uploadFile_steps w _ _ _ _ _ input size Hopen Hstat).
  pose proof (progress_returns _ _ Hprints) as Hret.
  split.
  - rewrite bind_emit. cbn [outcome snd]. rewrite outcome_bind, Hfolder.
    rewrite !bind_emit. cbn [outcome snd]. unfold transfer_report.
    rewrite outcome_bind, Hret, Herr. reflexivity.
  - rewrite bind_emit. cbn [trace fst]. rewrite trace_bind, Hfolder.
    rewrite !bind_emit. cbn [trace fst]. unfold transfer_report.
    rewrite trace_bind, Hret, Herr. cbn [trace fst bind emit ret app].
    eexists (Open filename :: trace (getOrCreateFolder w parentName) ++ _ :: _ :: trace _).
    cbn [app]. f_equal. rewrite <- app_assoc. cbn [app]. reflexivity.
Qed.

Lemma uploadFile_transfer_error_witness :
  os_Open world_transfer_broken "./index.html" = inl sample_input /\
  file_Stat sample_input = inl 2048 /\
  outcome (getOrCreateFolder world_transfer_broken "./user1") = Ret "folder-7" /\
  outcome (uploadFile world_transfer_broken "index.html" "" "./user1" "text/html" "./index.html")
  = Ret (None, Some "connection reset by peer").
Proof.
  split; [reflexivity |]. split; [reflexivity |]. split; [reflexivity |].
  exact (proj1 (uploadFile_transfer_error world_transfer_broken "index.html" "" "./user1"
                  "text/html" "./index.html" sample_input 2048 "folder-7" None
                  "connection reset by peer" eq_refl eq_refl eq_refl eq_refl eq_refl)).
Defined.

(** X17: a transfer that succeeds: [uploadFile] returns the file the
    service answered with, after printing a report with that file's title,
    the rate and the size, and a last line with its identifier. *)
Theorem uploadFile_success (w : World)
  (title description parentName mimeType filename : string)
  (input : OSFile) (size : Z) (parentId : string) (r : File) (rate total : string)
  (Hopen : os_Open w filename = inl input)
  (Hstat : file_Stat input = inl size)
  (Hfolder : outcome (getOrCreateFolder w parentName) = Ret parentId)
  (Hprints : progress_prints (time_Now w)
               (Files_Insert_ResumableMedia w
                  (upload_request title description mimeType parentId) size mimeType)
             = true)
  (Hdone : transfer_result
             (Files_Insert_ResumableMedia w
                (upload_request title description mimeType parentId) size mimeType)
           = (Some r, None))
  (Hrate : MeasureTransferRate (time_Now w)
             (done_time (Files_Insert_ResumableMedia w
                (upload_request title description mimeType parentId) size mimeType))
             (FileSize r)
           = Ret rate)
  (Htotal : FileSizeFormat (FileSize r) false = Ret total) :
  outcome (uploadFile w title description parentName mimeType filename)
  = Ret (Some r, None) /\
  exists before : list Event,
    trace (uploadFile w title description parentName mimeType filename)
    = before
      ++ [Stdout ("Uploaded '" +:+ Title r +:+ "' at " +:+ rate
                  +:+ ", total " +:+ total +:+ nl);
          Stdout ("Upload Done. ID : " +:+ Id r +:+ nl)].
Proof.
  rewrite (uploadFile_steps w _ _ _ _ _ input size Hopen Hstat).
  pose proof (progress_returns _ _ Hprints) as Hret.
  split.
  - rewrite bind_emit. cbn [outcome snd]. rewrite outcome_bind, Hfolder.
    rewrite !bind_emit. cbn [outcome snd]. unfold transfer_report.
    rewrite outcome_bind, Hret, Hdone, Hrate, Htotal. reflexivity.
  - rewrite bind_emit. cbn [trace fst]. rewrite trace_bind, Hfolder.
    rewrite !bind_emit. cbn [trace fst]. unfold transfer_report.
    rewrite trace_bind, Hret, Hdone, Hrate, Htotal. cbn [trace fst bind emit ret lift app].
    eexists (Open filename :: trace (getOrCreateFolder w parentName) ++ _ :: _ :: trace _).
    cbn [app]. f_equal. rewrite <- app_assoc. cbn [app]. reflexivity.
Qed.

Lemma uploadFile_success_witness :
  os_Open world_cached "./index.html" = inl sample_input /\
  file_Stat sample_input = inl 2048 /\
  outcome (getOrCreateFolder world_cached "./user1") = Ret "folder-7" /\
  outcome (uploadFile world_cached "index.html" "" "./user1" "text/html" "./index.html")
  = Ret (Some (mkFile "index.html" "" "text/html" ["folder-7"] "file-1" 2048 ""), None).
Proof.
  split; [reflexivity |]. split; [reflexivity |]. split; [reflexivity |].
  exact (proj1 (uploadFile_success world_cached "index.html" "" "./user1"
                  "text/html" "./index.html" sample_input 2048 "folder-7"
                  (mkFile "index.html" "" "text/html" ["folder-7"] "file-1" 2048 "")
                  "2.0 KB/s" "2.0 KB"
                  eq_refl eq_refl eq_refl eq_refl eq_refl eq_refl eq_refl)).
Defined.

(** X18: [uploadFile] opens one file, the one it is given, and never
    closes it; besides that it only prints and talks to the service: it
    reads no input, creates and writes no file, looks up no user. *)
Theorem uploadFile_events (w : World)
  (title description parentName mimeType filename : string) :
  Forall (upload_event filename)
         (trace (uploadFile w title description parentName mimeType filename)).
Proof.
  destruct (os_Open w filename) as [input|e] eqn:Hopen.
  - destruct (file_Stat input) as [size|e] eqn:Hstat.
    + rewrite (uploadFile_steps w _ _ _ _ _ input size Hopen Hstat).
      apply trace_bind_Forall; [apply trace_emit_Forall; reflexivity | intros _].
      apply trace_bind_Forall;
        [apply getOrCreateFolder_events; intros; exact I | intros parentId].
      apply trace_bind_Forall; [apply trace_emit_Forall; exact I | intros _].
      apply trace_bind_Forall; [apply trace_emit_Forall; exact I | intros _].
      apply transfer_report_events; intros; exact I.
    + unfold uploadFile. rewrite Hopen, Hstat. repeat constructor.
  - unfold uploadFile. rewrite Hopen. repeat constructor.
Qed.

(** ** [main] *)

Lemma each_print_item (items : list File) :
  each print_item items
  = (map (fun i => Stdout (Title i +:+ " (" +:+ Id i +:+ ")-(" +:+ DownloadUrl i
                           +:+ ")" +:+ nl)) items,
     Ret tt).
Proof.
  induction items as [|i items IH]; [reflexivity |].
  cbn [each map]. unfold print_item at 1. rewrite bind_emit, IH. reflexivity.
Qed.

Lemma list_files_listing (w : World) (items : list File)
  (Hlist : Files_List w None 10 = (Some items, None)) :
  list_files w
  = (DriveList None 10
     :: Stdout ("Files:" +:+ nl)
     :: match items with
        | [] => [Stdout "No files found."]
        | _ => map (fun i => Stdout (Title i +:+ " (" +:+ Id i +:+ ")-("
                                     +:+ DownloadUrl i +:+ ")" +:+ nl)) items
        end,
     Ret tt).
Proof.
  unfold list_files. rewrite Hlist, !bind_emit.
  destruct items as [|i items]; [reflexivity |].
  rewrite (each_print_item (i :: items)). reflexivity.
Qed.




Lemma list_files_outcome (w : World) :
  outcome (list_files w)
  = match Files_List w None 10 with
    | (_, Some _) => Exit 1
    | (None, None) => Panic NilDereference
    | (Some _, None) => Ret tt
    end.
Proof.
  destruct (Files_List w None 10) as [[items|] [e|]] eqn:Hlist.
  - unfold list_files. rewrite Hlist. reflexivity.
  - now rewrite (list_files_listing w items Hlist).
  - unfold list_files. rewrite Hlist. reflexivity.
  - unfold list_files. rewrite Hlist. reflexivity.
Qed.

(** [main] once the client secret is read and parsed. *)
Lemma main_steps (w : World) (flags : Flags) (b : string) (config : Config) :
  ioutil_ReadFile w "client_secret.json" = inl b ->
  google_ConfigFromJSON w b = inl config ->
  main w flags
  = (emit (ReadFile "client_secret.json") ;;
     let* client := getClient w config in
     emit DriveNew ;;
     match drive_New w client with
     | Some err => log_Fatalf ("Unable to retrieve drive Client " +:+ err)
     | None =>
         emit (Stdout ("Read file: " +:+ inputPath flags +:+ nl)) ;;
         emit (Stdout ("Output name: " +:+ main_outputTitle w flags +:+ nl)) ;;
         emit (Stdout ("Mime : " +:+ main_mimeType w flags +:+ nl)) ;;
         uploadFile w (main_outputTitle w flags) "" (folderName flags)
                    (main_mimeType w flags) (inputPath flags) ;;
         list_files w
     end).
Proof.
  intros Hread Hconf. unfold main. rewrite Hread, Hconf. reflexivity.
Qed.

(** X20: [main] does not look at what [uploadFile] returns. Whenever the
    upload returns, with a file or with an error, the catalog is listed
    next, and how the process ends is decided by that listing alone:
    status 0 when it succeeds, status 1 when it fails. *)
Theorem main_lists_after_upload (w : World) (flags : Flags)
  (b : string) (config : Config) (client : Client)
  (result : option File * option Error)
  (Hread : ioutil_ReadFile w "client_secret.json" = inl b)
  (Hconf : google_ConfigFromJSON w b = inl config)
  (Hclient : outcome (getClient w config) = Ret client)
  (Hnew : drive_New w client = None)
  (Hup : outcome (uploadFile w (main_outputTitle w flags) "" (folderName flags)
                    (main_mimeType w flags) (inputPath flags))
         = Ret result) :
  In (DriveList None 10) (trace (main w flags)) /\
  outcome (main w flags)
  = match Files_List w None 10 with
    | (_, Some _) => Exit 1
    | (None, None) => Panic NilDereference
    | (Some _, None) => Ret tt
    end.
Proof.
  rewrite (main_steps w flags b config Hread Hconf). split.
  - rewrite bind_emit. cbn [trace fst]. right.
    rewrite trace_bind, Hclient. apply in_or_app. right.
    rewrite bind_emit, Hnew, !bind_emit. cbn [trace fst].
    do 4 right. rewrite trace_bind, Hup. apply in_or_app. right.
    unfold list_files. rewrite bind_emit. now left.
  - rewrite bind_emit. cbn [outcome snd]. rewrite outcome_bind, Hclient.
    rewrite bind_emit, Hnew, !bind_emit. cbn [outcome snd].
    rewrite outcome_bind, Hup. apply list_files_outcome.
Qed.

Lemma main_lists_after_upload_witness :
  ioutil_ReadFile world_no_input "client_secret.json" = inl "{}" /\
  google_ConfigFromJSON world_no_input "{}" = inl (mkConfig "client-id") /\
  outcome (uploadFile world_no_input "index.html" "" "./user1" "text/html" "./index.html")
  = Ret (None, Some "open ./index.html: no such file or directory") /\
  In (DriveList None 10) (trace (main world_no_input default_flags)) /\
  outcome (main world_no_input default_flags) = Ret tt.
Proof.
  split; [reflexivity |]. split; [reflexivity |]. split; [reflexivity |].
  exact (main_lists_after_upload world_no_input default_flags "{}" (mkConfig "client-id")
           (mkClient (mkConfig "client-id") (Some sample_token))
           (None, Some "open ./index.html: no such file or directory")
           eq_refl eq_refl eq_refl eq_refl eq_refl).
Defined.

Lemma main_mimeType_not_empty (w : World) (flags : Flags) : main_mimeType w flags <> "".
Proof.
  unfold main_mimeType.
  destruct (String.eqb_spec (filepath_Ext w (inputPath flags)) "") as [_|_].
  - cbn. discriminate.
  - destruct (String.eqb_spec (mime_TypeByExtension w (filepath_Ext w (inputPath flags))) "")
      as [_|Hne]; [discriminate | exact Hne].
Qed.

(** [getClient] makes no request to the Drive service. *)
Lemma getClient_events (w : World) (config : Config) :
  Forall (fun e => is_remote e = false) (trace (getClient w config)).
Proof.
  destruct (user_Current w) as [usr [e|]] eqn:Hu.
  - rewrite (getClient_err w config usr e Hu). destruct usr; repeat constructor.
  - destruct (cached_token w) as [tok|] eqn:Hc.
    + rewrite (getClient_cache_hit w config usr tok Hu Hc). repeat constructor.
    + destruct (getClient_miss w config usr Hu Hc) as (loaded & Hl & ->).
      apply trace_bind_Forall.
      * cbn. eapply Forall_impl; [exact Hl |].
        intros [] H; try reflexivity; discriminate H.
      * intros _. unfold getTokenFromWeb, saveToken.
        apply trace_bind_Forall; [| intros tok].
        -- apply trace_bind_Forall; [apply trace_emit_Forall; reflexivity | intros _].
           apply trace_bind_Forall; [apply trace_emit_Forall; reflexivity | intros _].
           apply trace_bind_Forall; [apply trace_emit_Forall; reflexivity | intros _].
           destruct (fmt_Scan w) as [code|e]; [| repeat constructor].
           apply trace_bind_Forall; [apply trace_emit_Forall; reflexivity | intros _].
           destruct (config_Exchange w config code) as [t [e|]]; repeat constructor.
        -- apply trace_bind_Forall; [| intros _; constructor].
           apply trace_bind_Forall; [apply trace_emit_Forall; reflexivity | intros _].
           apply trace_bind_Forall; [apply trace_emit_Forall; reflexivity | intros _].
           destruct (os_Create w tokenCachePath); repeat constructor.
Qed.

Lemma list_files_no_transfer (w : World) :
  Forall (fun e => is_transfer e = false) (trace (list_files w)).
Proof.
  unfold list_files.
  apply trace_bind_Forall; [apply trace_emit_Forall; reflexivity | intros _].
  destruct (Files_List w None 10) as [r [e|]]; [repeat constructor |].
  apply trace_bind_Forall; [apply trace_emit_Forall; reflexivity | intros _].
  destruct r as [[|i items]|]; try (repeat constructor).
  rewrite each_print_item. cbn [trace fst].
  induction (i :: items) as [|i' l IH]; constructor; [reflexivity | exact IH].
Qed.

(** X21: every transfer [main] requests carries a MIME type that is not
    empty (the type found for the extension of the input path, or
    [application/octet-stream] when there is no extension or no type for
    it), the output name given on the command line or else the base name
    of the input path as its title, and an empty description. *)
Theorem main_request_fields (w : World) (flags : Flags) :
  Forall (fun e =>
            match e with
            | DriveInsertMedia f _ mimeType =>
                mimeType <> "" /\
                mimeType = main_mimeType w flags /\
                MimeType f = mimeType /\
                Title f = main_outputTitle w flags /\
                Description f = ""
            | _ => True
            end)
         (trace (main w flags)).
Proof.
  set (P := fun e => match e with
                     | DriveInsertMedia f _ mimeType =>
                         mimeType <> "" /\
                         mimeType = main_mimeType w flags /\
                         MimeType f = mimeType /\
                         Title f = main_outputTitle w flags /\
                         Description f = ""
                     | _ => True
                     end).
  assert (Hweak : forall l, Forall (fun e => is_transfer e = false) l -> Forall P l).
  { intros l Hl. eapply Forall_impl; [exact Hl |].
    intros [] H; try exact I. discriminate H. }
  assert (Hrem : forall l, Forall (fun e => is_remote e = false) l -> Forall P l).
  { intros l Hl. eapply Forall_impl; [exact Hl |].
    intros [] H; try exact I. discriminate H. }
  destruct (ioutil_ReadFile w "client_secret.json") as [b|e] eqn:Hread;
    [| unfold main; rewrite Hread; repeat constructor].
  destruct (google_ConfigFromJSON w b) as [config|e] eqn:Hconf;
    [| unfold main; rewrite Hread, Hconf; repeat constructor].
  rewrite (main_steps w flags b config Hread Hconf).
  apply trace_bind_Forall; [apply trace_emit_Forall; exact I | intros _].
  apply trace_bind_Forall; [apply Hrem, getClient_events | intros client].
  apply trace_bind_Forall; [apply trace_emit_Forall; exact I | intros _].
  destruct (drive_New w client); [repeat constructor |].
  apply trace_bind_Forall; [apply trace_emit_Forall; exact I | intros _].
  apply trace_bind_Forall; [apply trace_emit_Forall; exact I | intros _].
  apply trace_bind_Forall; [apply trace_emit_Forall; exact I | intros _].
  apply trace_bind_Forall; [| intros _; apply Hweak, list_files_no_transfer].
  destruct (os_Open w (inputPath flags)) as [input|e] eqn:Hopen;
    [| unfold uploadFile; rewrite Hopen; repeat constructor].
  destruct (file_Stat input) as [size|e] eqn:Hstat;
    [| unfold uploadFile; rewrite Hopen, Hstat; repeat constructor].
  rewrite (uploadFile_steps w _ _ _ _ _ input size Hopen Hstat).
  apply trace_bind_Forall; [apply trace_emit_Forall; exact I | intros _].
  apply trace_bind_Forall;
    [apply Hweak, getOrCreateFolder_events; reflexivity | intros parentId].
  apply trace_bind_Forall; [apply trace_emit_Forall; exact I | intros _].
  apply trace_bind_Forall; [| intros _; apply Hweak, transfer_report_events; reflexivity].
  apply trace_emit_Forall. cbn.
  repeat split; try reflexivity. apply main_mimeType_not_empty.
Qed.

(** X22: [main] makes no request to the Drive service before the client
    secret is read and parsed, [getClient] has returned a client and
    [drive.New] has accepted it. *)
Theorem main_no_request_before_client (w : World) (flags : Flags) :
  Forall (fun e =>
            is_remote e = true ->
            exists (b : string) (config : Config) (client : Client),
              ioutil_ReadFile w "client_secret.json" = inl b /\
              google_ConfigFromJSON w b = inl config /\
              outcome (getClient w config) = Ret client /\
              drive_New w client = None)
         (trace (main w flags)).
Proof.
  assert (Hlocal : forall (Q : Prop) l,
             Forall (fun e => is_remote e = false) l ->
             Forall (fun e => is_remote e = true -> Q) l).
  { intros Q l Hl. eapply Forall_impl; [exact Hl |]. intros e H1 H2. congruence. }
  destruct (ioutil_ReadFile w "client_secret.json") as [b|e] eqn:Hread;
    [| unfold main; rewrite Hread; apply Hlocal; repeat constructor].
  destruct (google_ConfigFromJSON w b) as [config|e] eqn:Hconf;
    [| unfold main; rewrite Hread, Hconf; apply Hlocal; repeat constructor].
  rewrite (main_steps w flags b config Hread Hconf).
  rewrite bind_emit. cbn [trace fst]. constructor; [discriminate |].
  rewrite trace_bind. apply Forall_app. split; [apply Hlocal, getClient_events |].
  destruct (outcome (getClient w config)) as [client| | |] eqn:Hclient; try constructor.
  rewrite bind_emit. cbn [trace fst]. constructor; [discriminate |].
  destruct (drive_New w client) as [e|] eqn:Hnew;
    [apply Hlocal; repeat constructor |].
  apply Forall_forall. intros e _ _. exists b, config, client. auto.
Qed.
